(** * k8s-agents-operator: the instrumentation injection engine

    A shallow embedding of [src/instrumentation/sdk.go] and of the
    environment validation of [src/api/v1alpha1/instrumentation_webhook.go],
    followed by the properties of the engine.

    Go strings are byte strings ([string], one [ascii] per byte), Go [int]
    is [Z], slices are lists, [map[string]T] is [gmap string T] and a
    missing key reads as the zero value.  A run-time panic (index out of
    range) and the exhaustion of the recursion bound of the model are
    explicit results. *)

From Stdlib Require Import ZArith String Ascii.
From stdpp Require Import base option list gmap strings fin_maps sorting.

Local Open Scope Z_scope.

(** ** Go's [strings] package (standard library), byte-wise *)

Module strings.

(** [strings.Split(s, sep)] for a one-byte separator, which is what every
    call site passes ([":"], [","], ["="]).  The result is never empty. *)
Fixpoint Split (s : string) (sep : ascii) : list string :=
  match s with
  | EmptyString => [EmptyString]
  | String c s' =>
      if Ascii.eqb c sep then EmptyString :: Split s' sep
      else match Split s' sep with
           | hd :: tl => String c hd :: tl
           | [] => [String c EmptyString]
           end
  end.

Definition HasPrefix (s pre : string) : bool := String.prefix pre s.

(** [strings.Contains(s, substr)]: [substr] starts at some offset of [s]. *)
Fixpoint Contains (s substr : string) : bool :=
  String.prefix substr s ||
  match s with
  | EmptyString => false
  | String _ s' => Contains s' substr
  end.

Fixpoint rev_onto (s acc : string) : string :=
  match s with
  | EmptyString => acc
  | String c s' => rev_onto s' (String c acc)
  end.

Definition rev (s : string) : string := rev_onto s EmptyString.

Definition HasSuffix (s suf : string) : bool := String.prefix (rev suf) (rev s).

Fixpoint Join (elems : list string) (sep : string) : string :=
  match elems with
  | [] => EmptyString
  | [e] => e
  | e :: rest => e +:+ sep +:+ Join rest sep
  end.

(** The six ASCII bytes of Go's [asciiSpace] table:
    tab, line feed, vertical tab, form feed, carriage return, space. *)
Definition asciiSpace (c : ascii) : bool :=
  let n := N_of_ascii c in
  ((9 <=? n)%N && (n <=? 13)%N) || (n =? 32)%N.

(** The white space of [unicode.IsSpace] above U+007F, by UTF-8 encoding:
    U+0085 and U+00A0 take two bytes. *)
Definition space2 (c1 c2 : ascii) : bool :=
  (N_of_ascii c1 =? 194)%N &&
  ((N_of_ascii c2 =? 133)%N || (N_of_ascii c2 =? 160)%N).

(** U+1680, U+2000..U+200A, U+2028, U+2029, U+202F, U+205F and U+3000
    take three bytes. *)
Definition space3 (c1 c2 c3 : ascii) : bool :=
  let n1 := N_of_ascii c1 in
  let n2 := N_of_ascii c2 in
  let n3 := N_of_ascii c3 in
  ((n1 =? 225) && (n2 =? 154) && (n3 =? 128))%N ||
  ((n1 =? 226) && (n2 =? 128) &&
     (((128 <=? n3) && (n3 <=? 138)) || (n3 =? 168) || (n3 =? 169) || (n3 =? 175)))%N ||
  ((n1 =? 226) && (n2 =? 129) && (n3 =? 159))%N ||
  ((n1 =? 227) && (n2 =? 128) && (n3 =? 128))%N.

(** [strings.TrimLeftFunc(s, unicode.IsSpace)]: drop leading white-space
    runes; a byte sequence that is not the encoding of a white-space rune
    stops the scan. *)
Fixpoint trimLeft (s : string) : string :=
  match s with
  | EmptyString => EmptyString
  | String c1 s1 =>
      if asciiSpace c1 then trimLeft s1
      else match s1 with
           | EmptyString => s
           | String c2 s2 =>
               if space2 c1 c2 then trimLeft s2
               else match s2 with
                    | EmptyString => s
                    | String c3 s3 =>
                        if space3 c1 c2 c3 then trimLeft s3 else s
                    end
           end
  end.

(** The same scan from the end, on the reversed string: the last byte
    comes first. *)
Fixpoint trimLeftRev (r : string) : string :=
  match r with
  | EmptyString => EmptyString
  | String c1 r1 =>
      if asciiSpace c1 then trimLeftRev r1
      else match r1 with
           | EmptyString => r
           | String c2 r2 =>
               if space2 c2 c1 then trimLeftRev r2
               else match r2 with
                    | EmptyString => r
                    | String c3 r3 =>
                        if space3 c3 c2 c1 then trimLeftRev r3 else r
                    end
           end
  end.

Definition trimRight (s : string) : string := rev (trimLeftRev (rev s)).

(** [strings.TrimSpace]. *)
Definition TrimSpace (s : string) : string := trimRight (trimLeft s).

(** ASCII lower-casing; it agrees with [strings.ToLower] on strings made of
    ASCII bytes only. *)
Definition lowerByte (c : ascii) : ascii :=
  let n := N_of_ascii c in
  if ((65 <=? n) && (n <=? 90))%N then ascii_of_N (n + 32) else c.

Fixpoint asciiToLower (s : string) : string :=
  match s with
  | EmptyString => EmptyString
  | String c s' => String (lowerByte c) (asciiToLower s')
  end.

End strings.

(** ** Kubernetes API types (external), restricted to the fields the engine reads or writes *)

Module metav1.

Module OwnerReference.
Record t := mk { Kind : string; Name : string; UID : string }.
End OwnerReference.

Module ObjectMeta.
Record t := mk {
  Name : string;
  Namespace : string;
  UID : string;
  Labels : gmap string string;
  Annotations : gmap string string;
  OwnerReferences : list OwnerReference.t
}.
(** The zero value [metav1.ObjectMeta{}]. *)
Definition zero : t := mk EmptyString EmptyString EmptyString ∅ ∅ [].
End ObjectMeta.

End metav1.

Module types.
Module NamespacedName.
Record t := mk { Namespace : string; Name : string }.
End NamespacedName.
End types.

Module appsv1.
Module ReplicaSet.
Record t := mk { ObjectMeta : metav1.ObjectMeta.t }.
(** The zero value [appsv1.ReplicaSet{}]. *)
Definition zero : t := mk metav1.ObjectMeta.zero.
End ReplicaSet.
End appsv1.

Module corev1.

Module ObjectFieldSelector.
Record t := mk { FieldPath : string }.
End ObjectFieldSelector.

Module SecretKeySelector.
Record t := mk {
  LocalObjectReference_Name : string;
  Key : string;
  Optional : option bool
}.
End SecretKeySelector.

Module EnvVarSource.
Record t := mk {
  FieldRef : option ObjectFieldSelector.t;
  SecretKeyRef : option SecretKeySelector.t
}.
End EnvVarSource.

Module EnvVar.
Record t := mk {
  Name : string;
  Value : string;
  ValueFrom : option EnvVarSource.t
}.
(** [container.Env[idx].Value = v] *)
Definition with_Value (e : t) (v : string) : t := mk (Name e) v (ValueFrom e).
End EnvVar.

Module Container.
Record t := mk {
  Name : string;
  Image : string;
  Env : list EnvVar.t
}.
(** [container.Env = envs] *)
Definition with_Env (c : t) (envs : list EnvVar.t) : t := mk (Name c) (Image c) envs.
End Container.

Module PodSpec.
Record t := mk {
  Containers : list Container.t;
  NodeName : string
}.
End PodSpec.

Module Pod.
Record t := mk {
  ObjectMeta : metav1.ObjectMeta.t;
  Spec : PodSpec.t
}.
Definition Containers (pod : t) : list Container.t := PodSpec.Containers (Spec pod).
(** [pod.Spec.Containers = cs] *)
Definition with_Containers (pod : t) (cs : list Container.t) : t :=
  mk (ObjectMeta pod) (PodSpec.mk cs (PodSpec.NodeName (Spec pod))).
End Pod.

Module Namespace.
Record t := mk { ObjectMeta : metav1.ObjectMeta.t }.
Definition Name (ns : t) : string := metav1.ObjectMeta.Name (ObjectMeta ns).
End Namespace.

End corev1.

(** ** Attribute keys of [go.opentelemetry.io/otel/semconv/v1.5.0] (external) *)

Module semconv.
Definition ServiceVersionKey : string := "service.version".
Definition ServiceInstanceIDKey : string := "service.instance.id".
Definition K8SNamespaceNameKey : string := "k8s.namespace.name".
Definition K8SNodeNameKey : string := "k8s.node.name".
Definition K8SPodNameKey : string := "k8s.pod.name".
Definition K8SPodUIDKey : string := "k8s.pod.uid".
Definition K8SContainerNameKey : string := "k8s.container.name".
Definition K8SReplicaSetNameKey : string := "k8s.replicaset.name".
Definition K8SReplicaSetUIDKey : string := "k8s.replicaset.uid".
Definition K8SDeploymentNameKey : string := "k8s.deployment.name".
Definition K8SDeploymentUIDKey : string := "k8s.deployment.uid".
Definition K8SStatefulSetNameKey : string := "k8s.statefulset.name".
Definition K8SStatefulSetUIDKey : string := "k8s.statefulset.uid".
Definition K8SDaemonSetNameKey : string := "k8s.daemonset.name".
Definition K8SDaemonSetUIDKey : string := "k8s.daemonset.uid".
Definition K8SJobNameKey : string := "k8s.job.name".
Definition K8SJobUIDKey : string := "k8s.job.uid".
Definition K8SCronJobNameKey : string := "k8s.cronjob.name".
Definition K8SCronJobUIDKey : string := "k8s.cronjob.uid".
End semconv.

(** ** Shared conventions of the embedding *)

(** [s[i]] on a slice: [None] is the index-out-of-range panic. *)
Definition at_index {A : Type} (l : list A) (i : Z) : option A :=
  if (0 <=? i) then l !! Z.to_nat i else None.

(** [len(s)] *)
Definition len {A : Type} (l : list A) : Z := Z.of_nat (length l).

(** [m[k]] on a [map[string]string]: the empty string when [k] is absent. *)
Definition map_index (m : gmap string string) (k : string) : string :=
  default EmptyString (m !! k).

(** [m[k]] on a [map[string]bool]: [false] when [k] is absent. *)
Definition set_index (m : gmap string bool) (k : string) : bool :=
  default false (m !! k).

(** Result of a run of the engine. *)
Inductive outcome (A : Type) : Type :=
  | Done (a : A)      (* normal return *)
  | Panic             (* Go run-time panic: index out of range *)
  | OutOfFuel.        (* the recursion bound of the model was reached *)
Arguments Done {A} a.
Arguments Panic {A}.
Arguments OutOfFuel {A}.

(** ** Package [v1alpha1]: the Instrumentation object and its validation *)

Module v1alpha1.

(** Modelled from the spec: the declaration of the per-language blocks
    (Java, NodeJS, Python, DotNet, Php, Go) of instrumentation_types.go is
    not among the sources; section 3 lists "image, user env vars" and the
    code reads [Image] and [Env]. *)
Module AgentSpec.
Record t := mk { Image : string; Env : list corev1.EnvVar.t }.
End AgentSpec.

(** Modelled from the spec: the declaration of [Resource] is not among the
    sources; "resource attribute overrides" and the flag "include UID
    attributes" of section 3. *)
Module Resource.
Record t := mk {
  Attributes : gmap string string;
  AddK8sUIDAttributes : bool
}.
End Resource.

(** Modelled from the spec: the declaration of [Sampler] is not among the
    sources; "sampler type/argument" of section 3. *)
Module Sampler.
Record t := mk { Type_ : string; Argument : string }.
End Sampler.

(** Modelled from the spec: the declaration of [InstrumentationSpec] is not
    among the sources; the fields are those of section 3 that the code
    reads.  [Endpoint] is the field of the embedded [Exporter], which the
    code reads both as [Spec.Exporter.Endpoint] and as [Spec.Endpoint]. *)
Module InstrumentationSpec.
Record t := mk {
  Endpoint : string;
  Resource : Resource.t;
  Propagators : list string;
  Sampler : Sampler.t;
  Env : list corev1.EnvVar.t;
  Java : AgentSpec.t;
  NodeJS : AgentSpec.t;
  Python : AgentSpec.t;
  DotNet : AgentSpec.t;
  Php : AgentSpec.t;
  Go : AgentSpec.t
}.
End InstrumentationSpec.

Module Instrumentation.
Record t := mk {
  ObjectMeta : metav1.ObjectMeta.t;
  Spec : InstrumentationSpec.t
}.
End Instrumentation.

Definition envNewRelicPrefix : string := "NEW_RELIC_".
Definition envOtelPrefix : string := "OTEL_".

Definition dquote : string := String (ascii_of_N 34) EmptyString.

(** The text of the format string of [validateEnv] before its [%s]. *)
Definition envNameError : string :=
  "env name should start with " +:+ dquote +:+ "NEW_RELIC_" +:+ dquote
  +:+ " or " +:+ dquote +:+ "OTEL_" +:+ dquote +:+ ": ".

(** An [error] built by [fmt.Errorf] is its message; [None] is [nil]. *)
Fixpoint validateEnv (envs : list corev1.EnvVar.t) : option string :=
  match envs with
  | [] => None
  | env :: envs' =>
      if negb (strings.HasPrefix (corev1.EnvVar.Name env) envNewRelicPrefix)
         && negb (strings.HasPrefix (corev1.EnvVar.Name env) envOtelPrefix)
      then Some (envNameError +:+ corev1.EnvVar.Name env)
      else validateEnv envs'
  end.

Definition validate (r : Instrumentation.t) : option string :=
  let spec := Instrumentation.Spec r in
  match validateEnv (InstrumentationSpec.Env spec) with
  | Some err => Some err
  | None =>
  match validateEnv (AgentSpec.Env (InstrumentationSpec.Java spec)) with
  | Some err => Some err
  | None =>
  match validateEnv (AgentSpec.Env (InstrumentationSpec.NodeJS spec)) with
  | Some err => Some err
  | None =>
  match validateEnv (AgentSpec.Env (InstrumentationSpec.Python spec)) with
  | Some err => Some err
  | None =>
  match validateEnv (AgentSpec.Env (InstrumentationSpec.DotNet spec)) with
  | Some err => Some err
  | None =>
  match validateEnv (AgentSpec.Env (InstrumentationSpec.Php spec)) with
  | Some err => Some err
  | None =>
  match validateEnv (AgentSpec.Env (InstrumentationSpec.Go spec)) with
  | Some err => Some err
  | None => None
  end end end end end end end.

Definition AnnotationDefaultAutoInstrumentationJava : string :=
  "instrumentation.newrelic.com/default-auto-instrumentation-java-image".
Definition AnnotationDefaultAutoInstrumentationNodeJS : string :=
  "instrumentation.newrelic.com/default-auto-instrumentation-nodejs-image".
Definition AnnotationDefaultAutoInstrumentationPython : string :=
  "instrumentation.newrelic.com/default-auto-instrumentation-python-image".
Definition AnnotationDefaultAutoInstrumentationDotNet : string :=
  "instrumentation.newrelic.com/default-auto-instrumentation-dotnet-image".
Definition AnnotationDefaultAutoInstrumentationPhp : string :=
  "instrumentation.newrelic.com/default-auto-instrumentation-php-image".
Definition AnnotationDefaultAutoInstrumentationGo : string :=
  "instrumentation.newrelic.com/default-auto-instrumentation-go-image".

(** One of the six image blocks of [Default], which differ by the language
    block and the annotation only:
    [if block.Image == "" { if val, ok := r.Annotations[annotation]; ok { block.Image = val } }]. *)
Definition defaultImage (annotations : gmap string string) (annotation : string)
    (block : AgentSpec.t) : AgentSpec.t :=
  if String.eqb (AgentSpec.Image block) EmptyString then
    match annotations !! annotation with
    | Some val => AgentSpec.mk val (AgentSpec.Env block)
    | None => block
    end
  else block.

(** [Default]: the receiver after the call.  A nil [Labels] map reads as the
    empty map, which the first statement makes it. *)
Definition Default (r : Instrumentation.t) : Instrumentation.t :=
  let meta := Instrumentation.ObjectMeta r in
  let labels := metav1.ObjectMeta.Labels meta in
  let labels :=
    if String.eqb (map_index labels "app.kubernetes.io/managed-by") EmptyString
    then <["app.kubernetes.io/managed-by"%string := "k8s-agents-operator"%string]> labels
    else labels in
  let annotations := metav1.ObjectMeta.Annotations meta in
  let spec := Instrumentation.Spec r in
  Instrumentation.mk
    (metav1.ObjectMeta.mk (metav1.ObjectMeta.Name meta) (metav1.ObjectMeta.Namespace meta)
       (metav1.ObjectMeta.UID meta) labels annotations
       (metav1.ObjectMeta.OwnerReferences meta))
    (InstrumentationSpec.mk
       (InstrumentationSpec.Endpoint spec) (InstrumentationSpec.Resource spec)
       (InstrumentationSpec.Propagators spec) (InstrumentationSpec.Sampler spec)
       (InstrumentationSpec.Env spec)
       (defaultImage annotations AnnotationDefaultAutoInstrumentationJava
          (InstrumentationSpec.Java spec))
       (defaultImage annotations AnnotationDefaultAutoInstrumentationNodeJS
          (InstrumentationSpec.NodeJS spec))
       (defaultImage annotations AnnotationDefaultAutoInstrumentationPython
          (InstrumentationSpec.Python spec))
       (defaultImage annotations AnnotationDefaultAutoInstrumentationDotNet
          (InstrumentationSpec.DotNet spec))
       (defaultImage annotations AnnotationDefaultAutoInstrumentationPhp
          (InstrumentationSpec.Php spec))
       (defaultImage annotations AnnotationDefaultAutoInstrumentationGo
          (InstrumentationSpec.Go spec))).

Definition ValidateCreate (r : Instrumentation.t) : option string := validate r.

(** [old] is a [runtime.Object], which the function does not read. *)
Definition ValidateUpdate {Object : Type} (r : Instrumentation.t) (old : Object)
  : option string := validate r.

Definition ValidateDelete (r : Instrumentation.t) : option string := None.

End v1alpha1.

(** ** Package [constants]

    The package is not among the sources: the names of the environment
    variables the engine writes are parameters of the embedding. *)

Module constants.
Record t := mk {
  EnvOTELServiceName : string;
  EnvOTELExporterOTLPEndpoint : string;
  EnvOTELResourceAttrs : string;
  EnvOTELPropagators : string;
  EnvOTELTracesSampler : string;
  EnvOTELTracesSamplerArg : string;
  EnvPodName : string;
  EnvPodUID : string;
  EnvNodeName : string;
  EnvNewRelicAppName : string;
  EnvNewRelicLicenseKey : string;
  EnvNewRelicLabels : string
}.
End constants.

(** ** Package [instrumentation]: sdk.go *)

Module instrumentation.

Import corev1 metav1 v1alpha1.

Module languageInstrumentations.
(** Modelled from the spec: the declaration of [languageInstrumentations]
    is not among the sources; "a mapping from language tag to an optional
    instrumentation specification" (section 6).  [None] is the nil
    pointer. *)
Record t := mk {
  Java : option Instrumentation.t;
  NodeJS : option Instrumentation.t;
  Python : option Instrumentation.t;
  DotNet : option Instrumentation.t;
  Php : option Instrumentation.t;
  Go : option Instrumentation.t
}.
End languageInstrumentations.

(** *** The environment list editor *)

Fixpoint getIndexOfEnv_from (i : Z) (envs : list EnvVar.t) (name : string) : Z :=
  match envs with
  | [] => -1
  | e :: envs' =>
      if String.eqb (EnvVar.Name e) name then i
      else getIndexOfEnv_from (i + 1) envs' name
  end.

Definition getIndexOfEnv (envs : list EnvVar.t) (name : string) : Z :=
  getIndexOfEnv_from 0 envs name.

Definition moveEnvToListEnd (envs : list EnvVar.t) (idx : Z) : list EnvVar.t :=
  if (0 <=? idx) && (idx <? len envs) then
    match envs !! Z.to_nat idx with
    | Some envToMove =>
        (take (Z.to_nat idx) envs ++ drop (Z.to_nat (idx + 1)) envs) ++ [envToMove]
    | None => envs
    end
  else envs.

(** *** Service identity *)

Definition chooseServiceName (pod : Pod.t) (resources : gmap string string) (index : Z)
  : option string :=
  let name := map_index resources semconv.K8SDeploymentNameKey in
  if negb (String.eqb name EmptyString) then Some name else
  let name := map_index resources semconv.K8SStatefulSetNameKey in
  if negb (String.eqb name EmptyString) then Some name else
  let name := map_index resources semconv.K8SJobNameKey in
  if negb (String.eqb name EmptyString) then Some name else
  let name := map_index resources semconv.K8SCronJobNameKey in
  if negb (String.eqb name EmptyString) then Some name else
  let name := map_index resources semconv.K8SPodNameKey in
  if negb (String.eqb name EmptyString) then Some name else
  Container.Name <$> at_index (Pod.Containers pod) index.

Definition chooseServiceVersion (pod : Pod.t) (index : Z) : option string :=
  c ← at_index (Pod.Containers pod) index;
  let parts := strings.Split (Container.Image c) ":" in
  tag ← at_index parts (len parts - 1);
  if strings.Contains tag "/" then Some EmptyString else Some tag.

(** *** Serialisation of the attribute map *)

Fixpoint insert_sorted (k : string) (keys : list string) : list string :=
  match keys with
  | [] => [k]
  | k' :: keys' =>
      if String.leb k k' then k :: keys else k' :: insert_sorted k keys'
  end.

(** [sort.Strings]: ascending byte-wise order. *)
Definition sort_Strings (keys : list string) : list string :=
  foldr insert_sorted [] keys.

Definition resourceMapToStr (res : gmap string string) : string :=
  let keys := sort_Strings (fst <$> map_to_list res) in
  fold_left
    (fun str k =>
       let str := if negb (String.eqb str EmptyString) then str +:+ "," else str in
       str +:+ (k +:+ "=" +:+ map_index res k))
    keys EmptyString.

Definition createServiceInstanceId (namespaceName podName containerName : string) : string :=
  if negb (String.eqb namespaceName EmptyString)
     && negb (String.eqb podName EmptyString)
     && negb (String.eqb containerName EmptyString)
  then strings.Join [namespaceName; podName; containerName] "."
  else EmptyString.

(** [pod.Spec.Containers[index] = c], through the pointer [container]. *)
Definition set_container (pod : Pod.t) (index : Z) (c : Container.t) : Pod.t :=
  Pod.with_Containers pod (<[Z.to_nat index := c]> (Pod.Containers pod)).

Definition getContainerIndex (containerName : string) (pod : Pod.t) : Z :=
  fst (fold_left
         (fun '(index, idx) ctnair =>
            (if String.eqb (Container.Name ctnair) containerName then idx else index,
             idx + 1))
         (Pod.Containers pod) (0, 0)).

Definition injectCommonEnvVar (newrelic : Instrumentation.t) (pod : Pod.t) (index : Z)
  : option Pod.t :=
  container ← at_index (Pod.Containers pod) index;
  let envs :=
    fold_left
      (fun envs env =>
         let idx := getIndexOfEnv envs (EnvVar.Name env) in
         if idx =? -1 then envs ++ [env] else envs)
      (InstrumentationSpec.Env (Instrumentation.Spec newrelic))
      (Container.Env container) in
  Some (set_container pod index (Container.with_Env container envs)).

Section engine.

(** The cluster the client reads, and one [client.Get] of a ReplicaSet:
    the object is filled in on success and left as it was on error. *)
Variable World : Type.
Variable error : Type.
Variable client_Get :
  types.NamespacedName.t -> World -> (error + appsv1.ReplicaSet.t) * World.
Variable apierrors_IsNotFound : error -> bool.

(** [strings.ToLower], whose Unicode tables are not reproduced. *)
Variable strings_ToLower : string -> string.

Variable consts : constants.t.

(** The per-language injectors of package [apm]: external collaborators
    that return the pod and an error. *)
Variables apm_InjectJavaagent apm_InjectNodeJSSDK apm_InjectPythonSDK
          apm_InjectDotNetSDK apm_InjectPhpagent :
  AgentSpec.t -> Pod.t -> Z -> Pod.t * option error.
Variable apm_InjectGoSDK : AgentSpec.t -> Pod.t -> Pod.t * option error.

(** Declared in another file of the package. *)
Variable annotationValue : ObjectMeta.t -> ObjectMeta.t -> string -> string.
Variable annotationInjectGoContainerName : string.

(** Computations that call the client. *)
Definition M (A : Type) : Type := World -> outcome (A * World).

Definition ret {A} (a : A) : M A := fun w => Done (a, w).

Definition bind {A B} (m : M A) (k : A -> M B) : M B :=
  fun w =>
    match m w with
    | Done (a, w') => k a w'
    | Panic => Panic
    | OutOfFuel => OutOfFuel
    end.

(** A slice access inside such a computation. *)
Definition lift {A} (o : option A) : M A :=
  fun w => match o with Some a => Done (a, w) | None => Panic end.

Fixpoint foldM {A B} (f : A -> B -> M A) (a : A) (l : list B) : M A :=
  match l with
  | [] => ret a
  | b :: l' => bind (f a b) (fun a' => foldM f a' l')
  end.

(** [retry.OnError] over [wait.ExponentialBackoff] (external): at most
    [steps] attempts, repeated while the error is retriable; the waits
    between attempts are not modelled.  [s] is what [fn] assigns. *)
Fixpoint retry_OnError {T : Type} (steps : nat) (retriable : error -> bool)
    (fn : T -> World -> option error * T * World)
    (lastErr : option error) (s : T) (w : World) : option error * T * World :=
  match steps with
  | O => (lastErr, s, w)
  | S steps' =>
      let '(err, s', w') := fn s w in
      match err with
      | None => (None, s', w')
      | Some e =>
          if retriable e
          then retry_OnError steps' retriable fn (Some e) s' w'
          else (Some e, s', w')
      end
  end.

(** [Steps] of the [wait.Backoff] literal. *)
Definition backOff_Steps : nat := 20.

(** The closure [getReplicaSet] of [addParentResourceLabels]. *)
Definition getReplicaSet (nsn : types.NamespacedName.t) (rs : appsv1.ReplicaSet.t)
    (w : World) : option error * appsv1.ReplicaSet.t * World :=
  match client_Get nsn w with
  | (inl err, w') => (Some err, rs, w')
  | (inr obj, w') => (None, obj, w')
  end.

(** [set_uid uid k v resources]: [if uid { resources[k] = v }]. *)
Definition set_uid (uid : bool) (k v : string) (resources : gmap string string)
  : gmap string string :=
  if uid then <[k := v]> resources else resources.

(** The recursion of the source is bounded by [fuel] calls. *)
Fixpoint addParentResourceLabels (fuel : nat) (uid : bool) (ns : Namespace.t)
    (objectMeta : ObjectMeta.t) (resources : gmap string string)
    {struct fuel} : M (gmap string string) :=
  match fuel with
  | O => fun _ => OutOfFuel
  | S fuel' =>
      foldM
        (fun resources owner =>
           let kind := strings_ToLower (OwnerReference.Kind owner) in
           if String.eqb kind "replicaset" then
             let resources :=
               <[semconv.K8SReplicaSetNameKey := OwnerReference.Name owner]> resources in
             let resources :=
               set_uid uid semconv.K8SReplicaSetUIDKey (OwnerReference.UID owner) resources in
             let rs := appsv1.ReplicaSet.zero in
             let nsn := types.NamespacedName.mk (Namespace.Name ns) (OwnerReference.Name owner) in
             let checkError := fun err => apierrors_IsNotFound err in
             fun w =>
               let '(err, rs, w) :=
                 retry_OnError backOff_Steps checkError (getReplicaSet nsn) None rs w in
               addParentResourceLabels fuel' uid ns
                 (appsv1.ReplicaSet.ObjectMeta rs) resources w
           else if String.eqb kind "deployment" then
             ret (set_uid uid semconv.K8SDeploymentUIDKey (OwnerReference.UID owner)
                    (<[semconv.K8SDeploymentNameKey := OwnerReference.Name owner]> resources))
           else if String.eqb kind "statefulset" then
             ret (set_uid uid semconv.K8SStatefulSetUIDKey (OwnerReference.UID owner)
                    (<[semconv.K8SStatefulSetNameKey := OwnerReference.Name owner]> resources))
           else if String.eqb kind "daemonset" then
             ret (set_uid uid semconv.K8SDaemonSetUIDKey (OwnerReference.UID owner)
                    (<[semconv.K8SDaemonSetNameKey := OwnerReference.Name owner]> resources))
           else if String.eqb kind "job" then
             ret (set_uid uid semconv.K8SJobUIDKey (OwnerReference.UID owner)
                    (<[semconv.K8SJobNameKey := OwnerReference.Name owner]> resources))
           else if String.eqb kind "cronjob" then
             ret (set_uid uid semconv.K8SCronJobUIDKey (OwnerReference.UID owner)
                    (<[semconv.K8SCronJobNameKey := OwnerReference.Name owner]> resources))
           else ret resources)
        resources (ObjectMeta.OwnerReferences objectMeta)
  end.

(** [createResourceMap]: the keys of the existing resource-attributes
    variable, then the declared attributes, then the topology. *)
Definition createResourceMap (fuel : nat) (newrelic : Instrumentation.t)
    (ns : Namespace.t) (pod : Pod.t) (index : Z) : M (gmap string string) :=
  bind (lift (at_index (Pod.Containers pod) index)) (fun c =>
  let existingResourceEnvIdx :=
    getIndexOfEnv (Container.Env c) (constants.EnvOTELResourceAttrs consts) in
  bind (if existingResourceEnvIdx >? -1 then
          bind (lift (at_index (Container.Env c) existingResourceEnvIdx)) (fun e =>
          let existingResArr := strings.Split (EnvVar.Value e) "," in
          ret (fold_left
                 (fun (existingRes : gmap string bool) kv =>
                    let keyValueArr := strings.Split (strings.TrimSpace kv) "=" in
                    match keyValueArr with
                    | [k; _] => <[k := true]> existingRes
                    | _ => existingRes
                    end)
                 existingResArr ∅))
        else ret ∅) (fun existingRes : gmap string bool =>
  let resource := InstrumentationSpec.Resource (Instrumentation.Spec newrelic) in
  let res : gmap string string :=
    map_fold
      (fun k v res => if negb (set_index existingRes k) then <[k := v]> res else res)
      ∅ (Resource.Attributes resource) in
  let k8sResources : gmap string string := ∅ in
  let k8sResources := <[semconv.K8SNamespaceNameKey := Namespace.Name ns]> k8sResources in
  let k8sResources := <[semconv.K8SContainerNameKey := Container.Name c]> k8sResources in
  let k8sResources :=
    <[semconv.K8SPodNameKey := ObjectMeta.Name (Pod.ObjectMeta pod)]> k8sResources in
  let k8sResources :=
    <[semconv.K8SPodUIDKey := ObjectMeta.UID (Pod.ObjectMeta pod)]> k8sResources in
  let k8sResources :=
    <[semconv.K8SNodeNameKey := PodSpec.NodeName (Pod.Spec pod)]> k8sResources in
  let k8sResources :=
    <[semconv.ServiceInstanceIDKey :=
        createServiceInstanceId (Namespace.Name ns)
          (ObjectMeta.Name (Pod.ObjectMeta pod)) (Container.Name c)]> k8sResources in
  bind (addParentResourceLabels fuel (Resource.AddK8sUIDAttributes resource) ns
          (Pod.ObjectMeta pod) k8sResources) (fun k8sResources =>
  ret (map_fold
         (fun k v res =>
            if negb (set_index existingRes k) && negb (String.eqb v EmptyString)
            then <[k := v]> res else res)
         res k8sResources)))).

(** A downward-API variable: [ValueFrom.FieldRef.FieldPath = path]. *)
Definition fieldRefEnv (name path : string) : EnvVar.t :=
  EnvVar.mk name EmptyString
    (Some (EnvVarSource.mk (Some (ObjectFieldSelector.mk path)) None)).

(** [fmt.Sprintf("$(%s)", name)] *)
Definition placeholder (name : string) : string := "$(" +:+ name +:+ ")".

(** The body of [injectCommonSDKConfig] after its first two lines, as
    what it does to [container.Env] and to [resourceMap]; [None] is a
    panic.  Lines 173-234: the service name, the exporter endpoint, the
    downward-API references and the service version. *)
Definition injectCommonSDKConfig_identity (newrelic : Instrumentation.t) (pod : Pod.t)
    (appIndex : Z) (env : list EnvVar.t) (resourceMap : gmap string string)
  : option (list EnvVar.t * gmap string string) :=
  let spec := Instrumentation.Spec newrelic in
  let idx := getIndexOfEnv env (constants.EnvOTELServiceName consts) in
  env ← (if idx =? -1 then
           name ← chooseServiceName pod resourceMap appIndex;
           Some (env ++ [EnvVar.mk (constants.EnvOTELServiceName consts) name None])
         else Some env);
  let env :=
    if negb (String.eqb (InstrumentationSpec.Endpoint spec) EmptyString) then
      let idx := getIndexOfEnv env (constants.EnvOTELExporterOTLPEndpoint consts) in
      if idx =? -1 then
        env ++ [EnvVar.mk (constants.EnvOTELExporterOTLPEndpoint consts)
                  (InstrumentationSpec.Endpoint spec) None]
      else env
    else env in
  let '(env, resourceMap) :=
    if String.eqb (map_index resourceMap semconv.K8SPodNameKey) EmptyString then
      (env ++ [fieldRefEnv (constants.EnvPodName consts) "metadata.name"],
       <[semconv.K8SPodNameKey := placeholder (constants.EnvPodName consts)]> resourceMap)
    else (env, resourceMap) in
  let '(env, resourceMap) :=
    if Resource.AddK8sUIDAttributes (InstrumentationSpec.Resource spec) then
      if String.eqb (map_index resourceMap semconv.K8SPodUIDKey) EmptyString then
        (env ++ [fieldRefEnv (constants.EnvPodUID consts) "metadata.uid"],
         <[semconv.K8SPodUIDKey := placeholder (constants.EnvPodUID consts)]> resourceMap)
      else (env, resourceMap)
    else (env, resourceMap) in
  let idx := getIndexOfEnv env (constants.EnvOTELResourceAttrs consts) in
  hasVersion ← (if idx =? -1 then Some false
                else e ← at_index env idx;
                     Some (strings.Contains (EnvVar.Value e) semconv.ServiceVersionKey));
  resourceMap ← (if negb hasVersion then
                   vsn ← chooseServiceVersion pod appIndex;
                   if negb (String.eqb vsn EmptyString)
                   then Some (<[semconv.ServiceVersionKey := vsn]> resourceMap)
                   else Some resourceMap
                 else Some resourceMap);
  let '(env, resourceMap) :=
    if String.eqb (map_index resourceMap semconv.K8SNodeNameKey) EmptyString then
      (env ++ [fieldRefEnv (constants.EnvNodeName consts) "spec.nodeName"],
       <[semconv.K8SNodeNameKey := placeholder (constants.EnvNodeName consts)]> resourceMap)
    else (env, resourceMap) in
  Some (env, resourceMap).

(** Lines 236-248: the resource-attributes variable is appended, or the
    serialised map is added to the value it has. *)
Definition injectCommonSDKConfig_attributes (env : list EnvVar.t)
    (resourceMap : gmap string string) : option (list EnvVar.t) :=
  let idx := getIndexOfEnv env (constants.EnvOTELResourceAttrs consts) in
  let resStr := resourceMapToStr resourceMap in
  if idx =? -1 then
    Some (env ++ [EnvVar.mk (constants.EnvOTELResourceAttrs consts) resStr None])
  else
    e ← at_index env idx;
    let resStr :=
      if negb (strings.HasSuffix (EnvVar.Value e) ",") then "," +:+ resStr
      else resStr in
    Some (<[Z.to_nat idx := EnvVar.with_Value e (EnvVar.Value e +:+ resStr)]> env).

(** Lines 250-284: the propagators, the sampler, and the move of the
    resource-attributes variable to the end of the list. *)
Definition injectCommonSDKConfig_tracing (newrelic : Instrumentation.t)
    (env : list EnvVar.t) : list EnvVar.t :=
  let spec := Instrumentation.Spec newrelic in
  let idx := getIndexOfEnv env (constants.EnvOTELPropagators consts) in
  let env :=
    if (idx =? -1) && (len (InstrumentationSpec.Propagators spec) >? 0) then
      let propagators := InstrumentationSpec.Propagators spec in
      env ++ [EnvVar.mk (constants.EnvOTELPropagators consts)
                (strings.Join propagators ",") None]
    else env in
  let idx := getIndexOfEnv env (constants.EnvOTELTracesSampler consts) in
  let sampler := InstrumentationSpec.Sampler spec in
  let env :=
    if (idx =? -1) && negb (String.eqb (Sampler.Type_ sampler) EmptyString) then
      let idxSamplerArg := getIndexOfEnv env (constants.EnvOTELTracesSamplerArg consts) in
      if idxSamplerArg =? -1 then
        let env :=
          env ++ [EnvVar.mk (constants.EnvOTELTracesSampler consts)
                    (Sampler.Type_ sampler) None] in
        if negb (String.eqb (Sampler.Argument sampler) EmptyString) then
          env ++ [EnvVar.mk (constants.EnvOTELTracesSamplerArg consts)
                    (Sampler.Argument sampler) None]
        else env
      else env
    else env in
  let idx := getIndexOfEnv env (constants.EnvOTELResourceAttrs consts) in
  let envs := moveEnvToListEnd env idx in
  envs.

Definition injectCommonSDKConfig_env (newrelic : Instrumentation.t) (pod : Pod.t)
    (appIndex : Z) (env : list EnvVar.t) (resourceMap : gmap string string)
  : option (list EnvVar.t) :=
  '(env, resourceMap) ← injectCommonSDKConfig_identity newrelic pod appIndex env resourceMap;
  env ← injectCommonSDKConfig_attributes env resourceMap;
  Some (injectCommonSDKConfig_tracing newrelic env).

Definition injectCommonSDKConfig (fuel : nat) (newrelic : Instrumentation.t)
    (ns : Namespace.t) (pod : Pod.t) (agentIndex appIndex : Z) : M Pod.t :=
  bind (lift (at_index (Pod.Containers pod) agentIndex)) (fun container =>
  bind (createResourceMap fuel newrelic ns pod appIndex) (fun resourceMap =>
  bind (lift (injectCommonSDKConfig_env newrelic pod appIndex
                (Container.Env container) resourceMap)) (fun envs =>
  ret (set_container pod agentIndex (Container.with_Env container envs))))).

Definition injectNewrelicConfig (fuel : nat) (newrelic : Instrumentation.t)
    (ns : Namespace.t) (pod : Pod.t) (index : Z) : M Pod.t :=
  bind (lift (at_index (Pod.Containers pod) index)) (fun container =>
  bind (createResourceMap fuel newrelic ns pod index) (fun resourceMap =>
  let env := Container.Env container in
  let idx := getIndexOfEnv env (constants.EnvNewRelicAppName consts) in
  bind (if idx =? -1 then
          bind (lift (chooseServiceName pod resourceMap index)) (fun name =>
          ret (env ++ [EnvVar.mk (constants.EnvNewRelicAppName consts) name None]))
        else ret env) (fun env =>
  let idx := getIndexOfEnv env (constants.EnvNewRelicLicenseKey consts) in
  let env :=
    if idx =? -1 then
      let optional := true in
      env ++ [EnvVar.mk (constants.EnvNewRelicLicenseKey consts) EmptyString
                (Some (EnvVarSource.mk None
                         (Some (SecretKeySelector.mk "newrelic-key-secret"
                                  "new_relic_license_key" (Some optional)))))]
    else env in
  let idx := getIndexOfEnv env (constants.EnvNewRelicLabels consts) in
  let env :=
    if idx =? -1 then
      env ++ [EnvVar.mk "NEW_RELIC_LABELS" "operator:auto-injection" None]
    else env in
  ret (set_container pod index (Container.with_Env container env))))).

(** One of the five in-process blocks of [inject] (Java, NodeJS, Python,
    DotNet, Php), which differ by the injector and the block of the
    spec only.  On an error the log line reads
    [pod.Spec.Containers[index].Name] of the pod the injector returned. *)
Definition injectAgent (fuel : nat)
    (injector : AgentSpec.t -> Pod.t -> Z -> Pod.t * option error)
    (block : InstrumentationSpec.t -> AgentSpec.t)
    (inst : option Instrumentation.t) (ns : Namespace.t) (index : Z) (pod : Pod.t)
  : M Pod.t :=
  match inst with
  | None => ret pod
  | Some newrelic =>
      let '(pod, err) := injector (block (Instrumentation.Spec newrelic)) pod index in
      match err with
      | Some _ => bind (lift (at_index (Pod.Containers pod) index)) (fun _ => ret pod)
      | None => injectNewrelicConfig fuel newrelic ns pod index
      end
  end.

(** Lines 63-136 of [inject]: the language blocks, run in order on the
    container [index]. *)
Definition inject_languages (fuel : nat) (insts : languageInstrumentations.t)
    (ns : Namespace.t) (index : Z) (pod : Pod.t) : M Pod.t :=
  bind (injectAgent fuel apm_InjectJavaagent InstrumentationSpec.Java
          (languageInstrumentations.Java insts) ns index pod) (fun pod =>
  bind (injectAgent fuel apm_InjectNodeJSSDK InstrumentationSpec.NodeJS
          (languageInstrumentations.NodeJS insts) ns index pod) (fun pod =>
  bind (injectAgent fuel apm_InjectPythonSDK InstrumentationSpec.Python
          (languageInstrumentations.Python insts) ns index pod) (fun pod =>
  bind (injectAgent fuel apm_InjectDotNetSDK InstrumentationSpec.DotNet
          (languageInstrumentations.DotNet insts) ns index pod) (fun pod =>
  bind (injectAgent fuel apm_InjectPhpagent InstrumentationSpec.Php
          (languageInstrumentations.Php insts) ns index pod) (fun pod =>
  match languageInstrumentations.Go insts with
  | None => ret pod
  | Some newrelic =>
      let goContainers :=
        annotationValue (Namespace.ObjectMeta ns) (Pod.ObjectMeta pod)
          annotationInjectGoContainerName in
      let index := getContainerIndex goContainers pod in
      let '(pod, err) :=
        apm_InjectGoSDK (InstrumentationSpec.Go (Instrumentation.Spec newrelic)) pod in
      match err with
      | Some _ => bind (lift (at_index (Pod.Containers pod) index)) (fun _ => ret pod)
      | None =>
          bind (lift (injectCommonEnvVar newrelic pod (len (Pod.Containers pod) - 1)))
            (fun pod =>
          injectCommonSDKConfig fuel newrelic ns pod (len (Pod.Containers pod) - 1) 0)
      end
  end))))).

Definition inject (fuel : nat) (insts : languageInstrumentations.t) (ns : Namespace.t)
    (pod : Pod.t) (containerName : string) : M Pod.t :=
  if len (Pod.Containers pod) <? 1 then ret pod
  else
    let index :=
      fst (fold_left
             (fun '(index, idx) ctnair =>
                (if String.eqb (Container.Name ctnair) containerName then idx else index,
                 idx + 1))
             (Pod.Containers pod) (0, 0)) in
    inject_languages fuel insts ns index pod.

End engine.

End instrumentation.

(** ** Vocabulary of the statements *)

(** The byte [c] occurs in [s]. *)
Definition has_byte (c : ascii) (s : string) : Prop := In c (list_ascii_of_string s).

(** A declared variable name that carries neither vendor prefix. *)
Definition unprefixed (env : corev1.EnvVar.t) : Prop :=
  strings.HasPrefix (corev1.EnvVar.Name env) "NEW_RELIC_" = false /\
  strings.HasPrefix (corev1.EnvVar.Name env) "OTEL_" = false.

(** Every environment variable an Instrumentation object declares: the
    common ones, then those of each language block. *)
Definition declared_envs (r : v1alpha1.Instrumentation.t) : list corev1.EnvVar.t :=
  let spec := v1alpha1.Instrumentation.Spec r in
  v1alpha1.InstrumentationSpec.Env spec
  ++ v1alpha1.AgentSpec.Env (v1alpha1.InstrumentationSpec.Java spec)
  ++ v1alpha1.AgentSpec.Env (v1alpha1.InstrumentationSpec.NodeJS spec)
  ++ v1alpha1.AgentSpec.Env (v1alpha1.InstrumentationSpec.Python spec)
  ++ v1alpha1.AgentSpec.Env (v1alpha1.InstrumentationSpec.DotNet spec)
  ++ v1alpha1.AgentSpec.Env (v1alpha1.InstrumentationSpec.Php spec)
  ++ v1alpha1.AgentSpec.Env (v1alpha1.InstrumentationSpec.Go spec).

(** The attribute keys [chooseServiceName] consults, in priority order. *)
Definition serviceNameKeys : list string :=
  [semconv.K8SDeploymentNameKey; semconv.K8SStatefulSetNameKey; semconv.K8SJobNameKey;
   semconv.K8SCronJobNameKey; semconv.K8SPodNameKey].

(** [objectMeta] with the owner references [owners]. *)
Definition with_owners (objectMeta : metav1.ObjectMeta.t)
    (owners : list metav1.OwnerReference.t) : metav1.ObjectMeta.t :=
  metav1.ObjectMeta.mk (metav1.ObjectMeta.Name objectMeta)
    (metav1.ObjectMeta.Namespace objectMeta) (metav1.ObjectMeta.UID objectMeta)
    (metav1.ObjectMeta.Labels objectMeta) (metav1.ObjectMeta.Annotations objectMeta) owners.

(** The names of the variables [injectCommonSDKConfig] may append besides
    the resource-attributes variable. *)
Definition written_names (consts : constants.t) : list string :=
  [constants.EnvOTELServiceName consts; constants.EnvOTELExporterOTLPEndpoint consts;
   constants.EnvPodName consts; constants.EnvPodUID consts; constants.EnvNodeName consts;
   constants.EnvOTELPropagators consts; constants.EnvOTELTracesSampler consts;
   constants.EnvOTELTracesSamplerArg consts].

(** [env'] is [env] followed by variables whose names are among [names]. *)
Definition appends (names : list string) (env env' : list corev1.EnvVar.t) : Prop :=
  exists A, env' = env ++ A /\ Forall (fun e => corev1.EnvVar.Name e ∈ names) A.

(** What [injectCommonSDKConfig] adds to the value of an existing
    resource-attributes variable [e]: the serialised map, after a comma
    unless the value ends with one. *)
Definition attributes_suffix (e : corev1.EnvVar.t) (resourceMap : gmap string string)
  : string :=
  if negb (strings.HasSuffix (corev1.EnvVar.Value e) ",")
  then "," +:+ instrumentation.resourceMapToStr resourceMap
  else instrumentation.resourceMapToStr resourceMap.

(** The keys [createResourceMap] reads from the resource-attributes variable
    of the container [c]. *)
Definition existing_keys (consts : constants.t) (c : corev1.Container.t) : gmap string bool :=
  match at_index (corev1.Container.Env c)
          (instrumentation.getIndexOfEnv (corev1.Container.Env c)
             (constants.EnvOTELResourceAttrs consts)) with
  | Some e =>
      fold_left
        (fun (existingRes : gmap string bool) kv =>
           match strings.Split (strings.TrimSpace kv) "=" with
           | [k; _] => <[k := true]> existingRes
           | _ => existingRes
           end)
        (strings.Split (corev1.EnvVar.Value e) ",") ∅
  | None => ∅
  end.

(** The topology attributes [createResourceMap] computes before the
    ownership walk. *)
Definition direct_topology (ns : corev1.Namespace.t) (pod : corev1.Pod.t)
    (c : corev1.Container.t) : gmap string string :=
  <[semconv.ServiceInstanceIDKey :=
      instrumentation.createServiceInstanceId (corev1.Namespace.Name ns)
        (metav1.ObjectMeta.Name (corev1.Pod.ObjectMeta pod)) (corev1.Container.Name c)]>
  (<[semconv.K8SNodeNameKey := corev1.PodSpec.NodeName (corev1.Pod.Spec pod)]>
  (<[semconv.K8SPodUIDKey := metav1.ObjectMeta.UID (corev1.Pod.ObjectMeta pod)]>
  (<[semconv.K8SPodNameKey := metav1.ObjectMeta.Name (corev1.Pod.ObjectMeta pod)]>
  (<[semconv.K8SContainerNameKey := corev1.Container.Name c]>
  (<[semconv.K8SNamespaceNameKey := corev1.Namespace.Name ns]> ∅))))).



(** [e] is the first variable of [envs] named [name], at index [i]. *)
Definition first_named (name : string) (envs : list corev1.EnvVar.t) (i : nat) (e : corev1.EnvVar.t) : Prop :=
  envs !! i = Some e /\ corev1.EnvVar.Name e = name /\
  forall (j : nat) y, envs !! j = Some y -> (j < i)%nat -> corev1.EnvVar.Name y <> name.

(** No variable of [envs] is named [name]. *)
Definition unnamed (name : string) (envs : list corev1.EnvVar.t) : Prop :=
  Forall (fun e => corev1.EnvVar.Name e <> name) envs.

(** The language blocks of a spec with the annotation [Default] reads for
    each. *)
Definition image_defaults (spec : v1alpha1.InstrumentationSpec.t)
  : list (v1alpha1.AgentSpec.t * string) :=
  [(v1alpha1.InstrumentationSpec.Java spec, v1alpha1.AnnotationDefaultAutoInstrumentationJava);
   (v1alpha1.InstrumentationSpec.NodeJS spec, v1alpha1.AnnotationDefaultAutoInstrumentationNodeJS);
   (v1alpha1.InstrumentationSpec.Python spec, v1alpha1.AnnotationDefaultAutoInstrumentationPython);
   (v1alpha1.InstrumentationSpec.DotNet spec, v1alpha1.AnnotationDefaultAutoInstrumentationDotNet);
   (v1alpha1.InstrumentationSpec.Php spec, v1alpha1.AnnotationDefaultAutoInstrumentationPhp);
   (v1alpha1.InstrumentationSpec.Go spec, v1alpha1.AnnotationDefaultAutoInstrumentationGo)].

(** The language blocks of a spec, in the order of [image_defaults]. *)
Definition language_blocks (spec : v1alpha1.InstrumentationSpec.t) : list v1alpha1.AgentSpec.t :=
  fst <$> image_defaults spec.

(** [objectMeta] with the labels [labels]. *)
Definition with_labels (objectMeta : metav1.ObjectMeta.t) (labels : gmap string string)
  : metav1.ObjectMeta.t :=
  metav1.ObjectMeta.mk (metav1.ObjectMeta.Name objectMeta)
    (metav1.ObjectMeta.Namespace objectMeta) (metav1.ObjectMeta.UID objectMeta)
    labels (metav1.ObjectMeta.Annotations objectMeta)
    (metav1.ObjectMeta.OwnerReferences objectMeta).

(** Byte-wise order on strings, the order of Go's [<=]. *)
Definition string_le (a b : string) : Prop := String.leb a b = true.

(** The items of the serialised map for the keys [keys]: [key=value]. *)
Definition attribute_items (res : gmap string string) (keys : list string) : list string :=
  (fun k => k +:+ "=" +:+ map_index res k) <$> keys.

(** An ASCII byte that is not white space. *)
Definition plain_byte (c : ascii) : bool :=
  negb (strings.asciiSpace c) && (N_of_ascii c <? 128)%N.

(** [s] is empty or starts with a plain byte. *)
Definition plain_start (s : string) : bool :=
  match s with
  | EmptyString => true
  | String c _ => plain_byte c
  end.

(** [s] is empty or ends with a plain byte. *)
Definition plain_end (s : string) : bool := plain_start (strings.rev s).

Fixpoint has_byteb (c : ascii) (s : string) : bool :=
  match s with
  | EmptyString => false
  | String x s' => Ascii.eqb x c || has_byteb c s'
  end.

(** A key and a value that the parser of [createResourceMap] reads back
    from [key=value]: neither holds a comma or an equals sign, the key does
    not start and the value does not end with white space or a byte above
    127. *)
Definition clean_attribute (k v : string) : bool :=
  negb (has_byteb "," k) && negb (has_byteb "=" k)
  && negb (has_byteb "," v) && negb (has_byteb "=" v)
  && plain_start k && plain_end v.

(** The body of the loop of [createResourceMap] over the parts of the existing value. *)
Definition read_part (existingRes : gmap string bool) (kv : string) : gmap string bool :=
  match strings.Split (strings.TrimSpace kv) "=" with
  | [k; _] => <[k := true]> existingRes
  | _ => existingRes
  end.

(** The keys the ownership walk writes: the names of the owners and, when
    UID attributes are asked for, their UIDs. *)
Definition owner_name_keys : list string :=
  [semconv.K8SReplicaSetNameKey; semconv.K8SDeploymentNameKey;
   semconv.K8SStatefulSetNameKey; semconv.K8SDaemonSetNameKey;
   semconv.K8SJobNameKey; semconv.K8SCronJobNameKey].

Definition owner_uid_keys : list string :=
  [semconv.K8SReplicaSetUIDKey; semconv.K8SDeploymentUIDKey;
   semconv.K8SStatefulSetUIDKey; semconv.K8SDaemonSetUIDKey;
   semconv.K8SJobUIDKey; semconv.K8SCronJobUIDKey].

(** [resources'] is [resources] with owner attributes written: every other
    key reads as before, and no key is lost. *)
Definition owner_extension (uid : bool) (resources resources' : gmap string string) : Prop :=
  (forall k, k ∉ owner_name_keys -> (uid = false \/ k ∉ owner_uid_keys) ->
             resources' !! k = resources !! k) /\
  (forall k, is_Some (resources !! k) -> is_Some (resources' !! k)).

(** What the ownership walk writes for an owner that is not a ReplicaSet:
    the name and, with UID attributes, the UID of a Deployment, StatefulSet,
    DaemonSet, Job or CronJob, and nothing for another kind. *)
Definition owner_attributes (strings_ToLower : string -> string) (uid : bool)
    (resources : gmap string string) (owner : metav1.OwnerReference.t)
  : gmap string string :=
  let kind := strings_ToLower (metav1.OwnerReference.Kind owner) in
  let name := metav1.OwnerReference.Name owner in
  let id := metav1.OwnerReference.UID owner in
  if String.eqb kind "deployment" then
    instrumentation.set_uid uid semconv.K8SDeploymentUIDKey id
      (<[semconv.K8SDeploymentNameKey := name]> resources)
  else if String.eqb kind "statefulset" then
    instrumentation.set_uid uid semconv.K8SStatefulSetUIDKey id
      (<[semconv.K8SStatefulSetNameKey := name]> resources)
  else if String.eqb kind "daemonset" then
    instrumentation.set_uid uid semconv.K8SDaemonSetUIDKey id
      (<[semconv.K8SDaemonSetNameKey := name]> resources)
  else if String.eqb kind "job" then
    instrumentation.set_uid uid semconv.K8SJobUIDKey id
      (<[semconv.K8SJobNameKey := name]> resources)
  else if String.eqb kind "cronjob" then
    instrumentation.set_uid uid semconv.K8SCronJobUIDKey id
      (<[semconv.K8SCronJobNameKey := name]> resources)
  else resources.

(** The entry [createResourceMap] returns for a key: none when the
    existing resource-attributes variable declares the key; else the
    topology value when there is one and it is not empty; else the
    attribute the spec declares. *)
Definition attribute_choice (declared : bool) (topology inSpec : option string)
  : option string :=
  if declared then None
  else match topology with
       | Some v => if String.eqb v EmptyString then inSpec else Some v
       | None => inSpec
       end.

(** The two fixed variables [injectNewrelicConfig] appends: the licence key,
    read from the optional secret, and the labels. *)
Definition licenseKeyEnv (consts : constants.t) : corev1.EnvVar.t :=
  corev1.EnvVar.mk (constants.EnvNewRelicLicenseKey consts) EmptyString
    (Some (corev1.EnvVarSource.mk None
             (Some (corev1.SecretKeySelector.mk "newrelic-key-secret"
                      "new_relic_license_key" (Some true))))).

Definition labelsEnv : corev1.EnvVar.t :=
  corev1.EnvVar.mk "NEW_RELIC_LABELS" "operator:auto-injection" None.

(** The variables of [envs] that are not named [name], in order. *)
Definition others_of (name : string) (envs : list corev1.EnvVar.t) : list corev1.EnvVar.t :=
  filter (fun e => corev1.EnvVar.Name e <> name) envs.

(** The attributes [injectCommonSDKConfig] fills through the downward API
    when the map has no value for them: the key, the variable that carries
    the field, and the path of the field.  The pod UID is one of them when
    UID attributes are asked for. *)
Definition downward_references (consts : constants.t) (uid : bool)
  : list (string * string * string) :=
  [(semconv.K8SPodNameKey, constants.EnvPodName consts, "metadata.name"%string)]
  ++ (if uid
      then [(semconv.K8SPodUIDKey, constants.EnvPodUID consts, "metadata.uid"%string)]
      else [])
  ++ [(semconv.K8SNodeNameKey, constants.EnvNodeName consts, "spec.nodeName"%string)].

(** ** Sample inputs *)

Module sample.

Import corev1 metav1 v1alpha1.

(** The names the OpenTelemetry and New Relic agents read. *)
Definition consts : constants.t :=
  constants.mk "OTEL_SERVICE_NAME" "OTEL_EXPORTER_OTLP_ENDPOINT" "OTEL_RESOURCE_ATTRIBUTES"
    "OTEL_PROPAGATORS" "OTEL_TRACES_SAMPLER" "OTEL_TRACES_SAMPLER_ARG"
    "OTEL_RESOURCE_ATTRIBUTES_POD_NAME" "OTEL_RESOURCE_ATTRIBUTES_POD_UID"
    "OTEL_RESOURCE_ATTRIBUTES_NODE_NAME"
    "NEW_RELIC_APP_NAME" "NEW_RELIC_LICENSE_KEY" "NEW_RELIC_LABELS".

Inductive error := NotFound | Forbidden.

Definition IsNotFound (err : error) : bool :=
  match err with NotFound => true | Forbidden => false end.

(** A cluster in which no ReplicaSet can be read; the world counts the
    calls made. *)
Definition World : Type := nat.

Definition client_Get (nsn : types.NamespacedName.t) (w : World)
  : (error + appsv1.ReplicaSet.t) * World :=
  (inl NotFound, S w).

(** An injector that prepares nothing and reports no error. *)
Definition injector (spec : AgentSpec.t) (pod : Pod.t) (index : Z) : Pod.t * option error :=
  (pod, None).

Definition injectGo (spec : AgentSpec.t) (pod : Pod.t) : Pod.t * option error :=
  (pod, None).

Definition annotationValue (ns pod : ObjectMeta.t) (annotation : string) : string :=
  map_index (ObjectMeta.Annotations pod) annotation.

Definition meta (name : string) (owners : list OwnerReference.t) : ObjectMeta.t :=
  ObjectMeta.mk name EmptyString EmptyString ∅ ∅ owners.

Definition ns : Namespace.t := Namespace.mk (meta "shop" []).

Definition noAgent : AgentSpec.t := AgentSpec.mk EmptyString [].

Definition spec (attributes : gmap string string) (env : list EnvVar.t)
  : InstrumentationSpec.t :=
  InstrumentationSpec.mk EmptyString (Resource.mk attributes false) []
    (Sampler.mk EmptyString EmptyString) env
    noAgent noAgent noAgent noAgent noAgent noAgent.

Definition newrelic : Instrumentation.t :=
  Instrumentation.mk (meta "newrelic" []) (spec ∅ []).

Definition noInsts : instrumentation.languageInstrumentations.t :=
  instrumentation.languageInstrumentations.mk None None None None None None.

Definition pod_of (name : string) (owners : list OwnerReference.t)
    (containers : list Container.t) : Pod.t :=
  Pod.mk (meta name owners) (PodSpec.mk containers "node-1").

(** A pod without containers. *)
Definition bare : Pod.t := pod_of "bare" [] [].

(** Two containers of the same name. *)
Definition twins : Pod.t :=
  pod_of "twins" [] [Container.mk "app" "app:1.2.3" []; Container.mk "app" "app:2.0" []].

(** One container, no environment. *)
Definition web : Pod.t := pod_of "web-1" [] [Container.mk "app" "app:1.2.3" []].

(** A pod owned by a ReplicaSet. *)
Definition replica : Pod.t :=
  pod_of "web-7d9-x" [OwnerReference.mk "ReplicaSet" "web-7d9" "uid-rs"]
    [Container.mk "app" "app:1.2.3" []].


(** A container whose resource-attributes variable declares the node name. *)
Definition declared : Pod.t :=
  pod_of "web-1" []
    [Container.mk "app" "app:1.2.3"
       [EnvVar.mk "OTEL_RESOURCE_ATTRIBUTES" "k8s.node.name=edge-7" None]].

(** [web] after one run of [injectCommonSDKConfig]. *)
Definition web_injected : Pod.t :=
  pod_of "web-1" []
    [Container.mk "app" "app:1.2.3"
       [EnvVar.mk "OTEL_SERVICE_NAME" "web-1" None;
        EnvVar.mk "OTEL_RESOURCE_ATTRIBUTES"
          ("k8s.container.name=app,k8s.namespace.name=shop,k8s.node.name=node-1,"
           +:+ "k8s.pod.name=web-1,service.instance.id=shop.web-1.app,"
           +:+ "service.version=1.2.3") None]].

(** The engine on this cluster. *)
Definition addParentResourceLabels :=
  instrumentation.addParentResourceLabels World error client_Get IsNotFound
    strings.asciiToLower.
Definition createResourceMap :=
  instrumentation.createResourceMap World error client_Get IsNotFound
    strings.asciiToLower consts.
Definition injectCommonSDKConfig :=
  instrumentation.injectCommonSDKConfig World error client_Get IsNotFound
    strings.asciiToLower consts.
Definition inject :=
  instrumentation.inject World error client_Get IsNotFound strings.asciiToLower consts
    injector injector injector injector injector injectGo annotationValue
    "instrumentation.newrelic.com/go-container-name".

End sample.

(** ** A cluster with a Deployment *)

Module cluster.

Import metav1.

(** The ReplicaSet [web-7d9] of the Deployment [web] can be read, no other
    object can; the world counts the calls made. *)
Definition World : Type := nat.

Definition client_Get (nsn : types.NamespacedName.t) (w : World)
  : (sample.error + appsv1.ReplicaSet.t) * World :=
  if String.eqb (types.NamespacedName.Name nsn) "web-7d9"
  then (inr (appsv1.ReplicaSet.mk
               (sample.meta "web-7d9" [OwnerReference.mk "Deployment" "web" "uid-d"])),
        S w)
  else (inl sample.NotFound, S w).

Definition createResourceMap :=
  instrumentation.createResourceMap World sample.error client_Get sample.IsNotFound
    strings.asciiToLower sample.consts.

End cluster.

(** * Properties *)

(** ** Go's [strings] *)

Lemma Split_nonempty s sep : strings.Split s sep <> [].
Proof.
  destruct s as [|c s]; simpl; [discriminate|].
  destruct (Ascii.eqb c sep); [discriminate|].
  destruct (strings.Split s sep); discriminate.
Qed.

Lemma Split_app_sep a b sep :
  strings.Split (a +:+ String sep b) sep = strings.Split a sep ++ strings.Split b sep.
Proof.
  induction a as [|c a IH]; simpl.
  - by rewrite Ascii.eqb_refl.
  - destruct (Ascii.eqb c sep); [by rewrite IH|].
    rewrite IH. pose proof (Split_nonempty a sep) as Hne.
    destruct (strings.Split a sep); [done|reflexivity].
Qed.

Lemma Split_no_sep t sep : ~ has_byte sep t -> strings.Split t sep = [t].
Proof.
  unfold has_byte. induction t as [|c t IH]; simpl; [done|].
  intros Hin. destruct (Ascii.eqb_spec c sep) as [->|Hne].
  - exfalso. apply Hin. by left.
  - rewrite IH; [done|]. intros H. apply Hin. by right.
Qed.

Lemma string_app_assoc (a b c : string) : (a +:+ b) +:+ c = a +:+ (b +:+ c).
Proof.
  induction a as [|x a IH]; [done|].
  change (String x ((a +:+ b) +:+ c) = String x (a +:+ (b +:+ c))). by rewrite IH.
Qed.

(** Every string ends in a colon-free segment that starts the string or
    follows a colon. *)
Lemma last_segment_exists (s : string) :
  exists pre tag, s = pre +:+ tag /\ ~ has_byte ":" tag /\
                  (pre = EmptyString \/ exists p, pre = p +:+ ":").
Proof.
  induction s as [|c s (pre & tag & -> & Htag & Hpre)].
  - exists EmptyString, EmptyString. split; [done|]. split; [|by left]. by intros [].
  - destruct Hpre as [->|[p ->]].
    + destruct (Ascii.eqb_spec c ":") as [->|Hne].
      * exists ":"%string, tag. split; [done|]. split; [done|]. right. by exists EmptyString.
      * exists EmptyString, (String c tag). split; [done|]. split; [|by left].
        unfold has_byte in *. simpl. intros [H|H]; [by apply Hne|by apply Htag].
    + exists (String c (p +:+ ":")), tag. split; [done|]. split; [done|].
      right. by exists (String c p).
Qed.

Lemma at_index_last {A} (l : list A) : at_index l (len l - 1) = last l.
Proof.
  unfold at_index, len. destruct l as [|x l]; [done|].
  replace (Z.of_nat (length (x :: l)) - 1) with (Z.of_nat (length l)) by (simpl; lia).
  destruct (Z.leb_spec 0 (Z.of_nat (length l))); [|lia].
  rewrite Nat2Z.id, last_lookup. done.
Qed.

Lemma Split_last_segment pre tag :
  ~ has_byte ":" tag ->
  (pre = EmptyString \/ exists p, pre = p +:+ ":") ->
  last (strings.Split (pre +:+ tag) ":") = Some tag.
Proof.
  intros Htag [->|[p ->]].
  - simpl. by rewrite Split_no_sep.
  - rewrite string_app_assoc. change (":" +:+ tag) with (String ":" tag).
    rewrite Split_app_sep, (Split_no_sep tag) by done.
    by rewrite last_snoc.
Qed.

Lemma Contains_byte c s :
  strings.Contains s (String c EmptyString) = true <-> has_byte c s.
Proof.
  unfold has_byte. induction s as [|x s IH]; simpl.
  - split; [discriminate|tauto].
  - destruct (ascii_dec c x) as [->|Hne].
    + split; [by left|]. intros _. destruct s; reflexivity.
    + simpl. rewrite IH. split; [tauto|]. intros [H|H]; [congruence|done].
Qed.

(** ** Validation of the declared environment (package [v1alpha1]) *)

Lemma validateEnv_app l1 l2 :
  v1alpha1.validateEnv (l1 ++ l2) =
  match v1alpha1.validateEnv l1 with
  | Some err => Some err
  | None => v1alpha1.validateEnv l2
  end.
Proof.
  induction l1 as [|env l1 IH]; simpl; [done|].
  by destruct (_ && _).
Qed.

Lemma validate_declared r : v1alpha1.validate r = v1alpha1.validateEnv (declared_envs r).
Proof.
  unfold v1alpha1.validate, declared_envs. rewrite !validateEnv_app.
  repeat (destruct (v1alpha1.validateEnv _); [reflexivity|]). reflexivity.
Qed.

Lemma unprefixed_test env :
  negb (strings.HasPrefix (corev1.EnvVar.Name env) v1alpha1.envNewRelicPrefix)
  && negb (strings.HasPrefix (corev1.EnvVar.Name env) v1alpha1.envOtelPrefix) = true
  <-> unprefixed env.
Proof.
  unfold unprefixed, v1alpha1.envNewRelicPrefix, v1alpha1.envOtelPrefix.
  rewrite andb_true_iff, !negb_true_iff. done.
Qed.

Lemma validateEnv_None envs :
  v1alpha1.validateEnv envs = None <-> Forall (fun env => ~ unprefixed env) envs.
Proof.
  induction envs as [|env envs IH]; simpl.
  - split; [constructor|done].
  - rewrite Forall_cons, <- IH, <- unprefixed_test.
    destruct (_ && _); split; try done; intros [H ?]; [by destruct H|done].
Qed.

Lemma validateEnv_Some envs msg :
  v1alpha1.validateEnv envs = Some msg ->
  exists env, env ∈ envs /\ unprefixed env /\
              msg = v1alpha1.envNameError +:+ corev1.EnvVar.Name env.
Proof.
  induction envs as [|env envs IH]; simpl; [done|].
  destruct (_ && _) eqn:Htest.
  - intros [= <-]. exists env. split; [by left|]. split; [|done]. by apply unprefixed_test.
  - intros (env' & Hin & ?)%IH. exists env'. split; [by right|done].
Qed.

(** C9: validation returns an error exactly when some declared variable, of
    the common spec or of a language block, starts with neither "NEW_RELIC_"
    nor "OTEL_"; the error message ends with the name of such a variable, and
    validation succeeds when every declared name carries one of the two
    prefixes. *)
Theorem validate_rejects_unprefixed (r : v1alpha1.Instrumentation.t) :
  (v1alpha1.validate r <> None <-> Exists unprefixed (declared_envs r)) /\
  (forall msg, v1alpha1.validate r = Some msg ->
     exists env, env ∈ declared_envs r /\ unprefixed env /\
                 msg = v1alpha1.envNameError +:+ corev1.EnvVar.Name env) /\
  (Forall (fun env => strings.HasPrefix (corev1.EnvVar.Name env) "NEW_RELIC_" = true \/
                      strings.HasPrefix (corev1.EnvVar.Name env) "OTEL_" = true)
          (declared_envs r) ->
   v1alpha1.validate r = None).
Proof.
  rewrite validate_declared. split; [|split].
  - split.
    + intros Hne. destruct (v1alpha1.validateEnv _) as [msg|] eqn:E; [|done].
      apply validateEnv_Some in E as (env & Hin & Hu & _).
      apply Exists_exists. eauto.
    + intros (env & Hin & Hu)%Exists_exists Hnone%validateEnv_None.
      rewrite Forall_forall in Hnone. by apply (Hnone env).
  - apply validateEnv_Some.
  - intros Hall. apply validateEnv_None. eapply Forall_impl; [exact Hall|].
    intros env [H|H] [H1 H2]; congruence.
Qed.

(** ** Service identity *)

Import corev1 metav1 instrumentation.

(** C8: the version is the last colon-separated segment of the image
    reference, and it is absent (the empty string) when that segment
    contains a slash. *)
Theorem chooseServiceVersion_last_segment (pod : Pod.t) (index : Z) (c : Container.t) :
  at_index (Pod.Containers pod) index = Some c ->
  (exists pre tag, Container.Image c = pre +:+ tag /\ ~ has_byte ":" tag /\
                   (pre = EmptyString \/ exists p, pre = p +:+ ":")) /\
  (forall pre tag,
     Container.Image c = pre +:+ tag -> ~ has_byte ":" tag ->
     (pre = EmptyString \/ exists p, pre = p +:+ ":") ->
     (has_byte "/" tag -> chooseServiceVersion pod index = Some EmptyString) /\
     (~ has_byte "/" tag -> chooseServiceVersion pod index = Some tag)) /\
  (Container.Image c = "registry:5000/app"%string ->
   chooseServiceVersion pod index = Some EmptyString) /\
  (Container.Image c = "app:1.2.3"%string ->
   chooseServiceVersion pod index = Some "1.2.3"%string).
Proof.
  intros Hc. split; [apply last_segment_exists|].
  unfold chooseServiceVersion. rewrite Hc. simpl.
  split; [|split].
  - intros pre tag -> Htag Hpre.
    rewrite at_index_last, Split_last_segment by done. simpl.
    pose proof (Contains_byte "/" tag) as Hslash.
    destruct (strings.Contains tag "/").
    + split; [done|]. intros Hno. exfalso. apply Hno, Hslash. done.
    + split; [|done]. intros Hyes. apply Hslash in Hyes. done.
  - intros ->. reflexivity.
  - intros ->. reflexivity.
Qed.

Lemma map_index_empty_eqb (resources : gmap string string) key :
  map_index resources key = EmptyString ->
  String.eqb (map_index resources key) EmptyString = true.
Proof. intros ->. reflexivity. Qed.

Lemma map_index_nonempty_eqb (resources : gmap string string) key :
  map_index resources key <> EmptyString ->
  String.eqb (map_index resources key) EmptyString = false.
Proof. intros H. by apply String.eqb_neq. Qed.

(** C7: the service name is the first non-empty value among the Deployment,
    StatefulSet, Job, CronJob and Pod names of the attribute map, in that
    order, and the name of the container when all five are empty. *)
Theorem chooseServiceName_priority (pod : Pod.t) (resources : gmap string string)
    (index : Z) :
  (forall (i : nat) key,
     serviceNameKeys !! i = Some key ->
     map_index resources key <> EmptyString ->
     (forall (j : nat) key', (j < i)%nat -> serviceNameKeys !! j = Some key' ->
                             map_index resources key' = EmptyString) ->
     chooseServiceName pod resources index = Some (map_index resources key)) /\
  ((forall key, key ∈ serviceNameKeys -> map_index resources key = EmptyString) ->
   forall c, at_index (Pod.Containers pod) index = Some c ->
             chooseServiceName pod resources index = Some (Container.Name c)).
Proof.
  split.
  - intros i key Hkey Hne Hbefore. unfold chooseServiceName.
    assert (Hb : forall (j : nat) key', (j < i)%nat -> serviceNameKeys !! j = Some key' ->
                 String.eqb (map_index resources key') EmptyString = true)
      by (intros; apply map_index_empty_eqb; eauto).
    destruct i as [|[|[|[|[|i]]]]]; [..|done]; injection Hkey as <-;
      try rewrite (Hb 0%nat semconv.K8SDeploymentNameKey) by (lia || reflexivity);
      try rewrite (Hb 1%nat semconv.K8SStatefulSetNameKey) by (lia || reflexivity);
      try rewrite (Hb 2%nat semconv.K8SJobNameKey) by (lia || reflexivity);
      try rewrite (Hb 3%nat semconv.K8SCronJobNameKey) by (lia || reflexivity);
      rewrite (map_index_nonempty_eqb _ _ Hne); reflexivity.
  - intros Hall c Hc. unfold chooseServiceName.
    rewrite !map_index_empty_eqb by (apply Hall; unfold serviceNameKeys; set_solver).
    simpl. by rewrite Hc.
Qed.

(** ** The container search *)

Lemma container_search_spec (containerName : string) (cs : list Container.t) :
  let r := fold_left
             (fun '(index, idx) ctnair =>
                (if String.eqb (Container.Name ctnair) containerName then idx else index,
                 idx + 1))
             cs (0, 0) in
  snd r = len cs /\
  ((forall c, c ∈ cs -> Container.Name c <> containerName) -> fst r = 0) /\
  (forall (j : nat) c, cs !! j = Some c -> Container.Name c = containerName ->
     Z.of_nat j <= fst r /\
     exists c', at_index cs (fst r) = Some c' /\ Container.Name c' = containerName).
Proof.
  induction cs as [|c cs IH] using rev_ind; simpl.
  - split; [done|]. split; [done|]. intros j c Hj. by rewrite lookup_nil in Hj.
  - rewrite fold_left_app. simpl in *.
    destruct (fold_left _ cs (0, 0)) as [index idx]. simpl in *.
    destruct IH as (-> & Hnone & Hlast). unfold len in *. rewrite length_app. simpl.
    split; [lia|].
    destruct (String.eqb_spec (Container.Name c) containerName) as [Heq|Hne]; simpl.
    + split.
      * intros Hno. exfalso. apply (Hno c); [|done].
        apply elem_of_app. right. by left.
      * intros j c0 Hj Hname. apply lookup_lt_Some in Hj as Hlt.
        rewrite length_app in Hlt. simpl in Hlt. split; [lia|].
        exists c. split; [|done]. unfold at_index.
        destruct (Z.leb_spec 0 (Z.of_nat (length cs))); [|lia].
        rewrite Nat2Z.id. by rewrite lookup_app_r, Nat.sub_diag.
    + split.
      * intros Hno. apply Hnone. intros c0 Hin. apply Hno.
        apply elem_of_app. by left.
      * intros j c0 Hj Hname.
        assert (cs !! j = Some c0) as Hj'.
        { apply lookup_app_Some in Hj as [Hj|[_ Hj]]; [done|].
          destruct (j - length cs)%nat; simpl in Hj; [|done]. congruence. }
        destruct (Hlast j c0 Hj' Hname) as (Hle & c' & Hc' & Hn'). split; [done|].
        exists c'. split; [|done]. unfold at_index in *.
        destruct (0 <=? index); [|done]. by apply lookup_app_l_Some.
Qed.

(** ** The environment list editor *)

Lemma getIndexOfEnv_from_cases k envs name :
  0 <= k ->
  (getIndexOfEnv_from k envs name = -1 /\ unnamed name envs) \/
  (exists i e, getIndexOfEnv_from k envs name = k + Z.of_nat i /\ first_named name envs i e).
Proof.
  revert k. induction envs as [|e envs IH]; intros k Hk; simpl.
  - left. split; [done|constructor].
  - destruct (String.eqb_spec (EnvVar.Name e) name) as [Heq|Hne].
    + right. exists 0%nat, e. split; [lia|]. split; [done|]. split; [done|]. intros; lia.
    + destruct (IH (k + 1) ltac:(lia)) as [[-> Hun]|(i & e' & -> & Hi & Hn & Hmin)].
      * left. split; [done|]. by constructor.
      * right. exists (S i), e'. split; [lia|]. split; [done|]. split; [done|].
        intros [|j] y Hj Hlt; simpl in Hj; [congruence|]. apply (Hmin j); [done|lia].
Qed.

Lemma getIndexOfEnv_cases envs name :
  (getIndexOfEnv envs name = -1 /\ unnamed name envs) \/
  (exists i e, getIndexOfEnv envs name = Z.of_nat i /\ first_named name envs i e).
Proof. apply (getIndexOfEnv_from_cases 0). lia. Qed.

Lemma first_named_unique name envs i e i' e' :
  first_named name envs i e -> first_named name envs i' e' -> i = i' /\ e = e'.
Proof.
  intros (Hi & Hn & Hmin) (Hi' & Hn' & Hmin').
  assert (i = i') as <-.
  { destruct (Nat.lt_trichotomy i i') as [Hlt|[?|Hlt]]; [|done|].
    - by destruct (Hmin' i e Hi Hlt).
    - by destruct (Hmin i' e' Hi' Hlt). }
  split; [done|congruence].
Qed.

Lemma first_named_not_unnamed name envs i e :
  first_named name envs i e -> unnamed name envs -> False.
Proof.
  intros (Hi & Hn & _) Hun. unfold unnamed in Hun. rewrite Forall_forall in Hun.
  apply (Hun e); [|done]. by eapply list_elem_of_lookup_2.
Qed.

Lemma getIndexOfEnv_first name envs i e :
  first_named name envs i e -> getIndexOfEnv envs name = Z.of_nat i.
Proof.
  intros Hfirst. destruct (getIndexOfEnv_cases envs name) as [[_ Hun]|(i' & e' & -> & H')].
  - by destruct (first_named_not_unnamed _ _ _ _ Hfirst Hun).
  - by destruct (first_named_unique _ _ _ _ _ _ Hfirst H') as [-> _].
Qed.

Lemma getIndexOfEnv_unnamed name envs :
  unnamed name envs -> getIndexOfEnv envs name = -1.
Proof.
  intros Hun. destruct (getIndexOfEnv_cases envs name) as [[-> _]|(i & e & _ & H)]; [done|].
  by destruct (first_named_not_unnamed _ _ _ _ H Hun).
Qed.

Lemma first_named_at_index name envs i e :
  first_named name envs i e -> at_index envs (Z.of_nat i) = Some e.
Proof.
  intros (Hi & _). unfold at_index. destruct (Z.leb_spec 0 (Z.of_nat i)); [|lia].
  by rewrite Nat2Z.id.
Qed.

Lemma first_named_app name envs l i e :
  first_named name envs i e -> first_named name (envs ++ l) i e.
Proof.
  intros (Hi & Hn & Hmin). split; [by apply lookup_app_l_Some|]. split; [done|].
  intros j y Hj Hlt. apply (Hmin j); [|done].
  apply lookup_lt_Some in Hi. rewrite lookup_app_l in Hj by lia. done.
Qed.

Lemma first_named_insert name envs i e e' :
  first_named name envs i e -> EnvVar.Name e' = name ->
  first_named name (<[i := e']> envs) i e'.
Proof.
  intros (Hi & Hn & Hmin) Hn'. split.
  - apply list_lookup_insert_eq. by eapply lookup_lt_Some.
  - split; [done|]. intros j y Hj Hlt. rewrite list_lookup_insert_ne in Hj by lia.
    by apply (Hmin j).
Qed.

Lemma first_named_snoc name envs e :
  unnamed name envs -> EnvVar.Name e = name ->
  first_named name (envs ++ [e]) (length envs) e.
Proof.
  intros Hun Hn. split.
  - by rewrite lookup_app_r, Nat.sub_diag.
  - split; [done|]. intros j y Hj Hlt. rewrite lookup_app_l in Hj by done.
    unfold unnamed in Hun. rewrite Forall_forall in Hun. apply Hun.
    by eapply list_elem_of_lookup_2.
Qed.

Lemma unnamed_app name l1 l2 : unnamed name (l1 ++ l2) <-> unnamed name l1 /\ unnamed name l2.
Proof. apply Forall_app. Qed.

(** [moveEnvToListEnd] on an index of the list. *)
Lemma moveEnvToListEnd_in_range envs (i : nat) e :
  envs !! i = Some e ->
  moveEnvToListEnd envs (Z.of_nat i) = take i envs ++ drop (S i) envs ++ [e].
Proof.
  intros Hi. unfold moveEnvToListEnd, len. apply lookup_lt_Some in Hi as Hlt.
  destruct (Z.leb_spec 0 (Z.of_nat i)); [|lia].
  destruct (Z.ltb_spec (Z.of_nat i) (Z.of_nat (length envs))); [|lia]. simpl.
  rewrite Nat2Z.id, Hi. replace (Z.to_nat (Z.of_nat i + 1)) with (S i) by lia.
  by rewrite <- app_assoc.
Qed.

(** [moveEnvToListEnd] on any other index. *)
Lemma moveEnvToListEnd_out_of_range envs idx :
  idx < 0 \/ len envs <= idx -> moveEnvToListEnd envs idx = envs.
Proof.
  intros Hout. unfold moveEnvToListEnd.
  destruct (Z.leb_spec 0 idx), (Z.ltb_spec idx (len envs)); simpl; try done. lia.
Qed.

Section engine_properties.

Context (World error : Type).
Context (client_Get : types.NamespacedName.t -> World -> (error + appsv1.ReplicaSet.t) * World).
Context (apierrors_IsNotFound : error -> bool).
Context (strings_ToLower : string -> string).
Context (consts : constants.t).

Local Abbreviation addParentResourceLabels :=
  (instrumentation.addParentResourceLabels World error client_Get apierrors_IsNotFound
     strings_ToLower).
Local Abbreviation createResourceMap :=
  (instrumentation.createResourceMap World error client_Get apierrors_IsNotFound
     strings_ToLower consts).
Local Abbreviation injectCommonSDKConfig :=
  (instrumentation.injectCommonSDKConfig World error client_Get apierrors_IsNotFound
     strings_ToLower consts).
Local Abbreviation injectNewrelicConfig :=
  (instrumentation.injectNewrelicConfig World error client_Get apierrors_IsNotFound
     strings_ToLower consts).

(** *** The ownership walk *)

Local Abbreviation retry_OnError :=
  (instrumentation.retry_OnError World error).
Local Abbreviation getReplicaSet :=
  (instrumentation.getReplicaSet World error client_Get).




(** *** The common SDK configuration *)

Local Abbreviation injectCommonSDKConfig_identity :=
  (instrumentation.injectCommonSDKConfig_identity consts).
Local Abbreviation injectCommonSDKConfig_attributes :=
  (instrumentation.injectCommonSDKConfig_attributes consts).
Local Abbreviation injectCommonSDKConfig_tracing :=
  (instrumentation.injectCommonSDKConfig_tracing consts).
Local Abbreviation injectCommonSDKConfig_env :=
  (instrumentation.injectCommonSDKConfig_env consts).

Lemma appends_refl names env : appends names env env.
Proof. exists []. split; [by rewrite app_nil_r|constructor]. Qed.

Lemma appends_snoc names env env' e :
  appends names env env' -> EnvVar.Name e ∈ names -> appends names env (env' ++ [e]).
Proof.
  intros (A & -> & HA) He. exists (A ++ [e]). split; [by rewrite app_assoc|].
  apply Forall_app. split; [done|]. by repeat constructor.
Qed.

Lemma appends_trans names env1 env2 env3 :
  appends names env1 env2 -> appends names env2 env3 -> appends names env1 env3.
Proof.
  intros (A & -> & HA) (B & -> & HB). exists (A ++ B). split; [by rewrite app_assoc|].
  by apply Forall_app.
Qed.

Ltac solve_appends :=
  repeat first
    [ apply appends_refl
    | apply appends_snoc; [|simpl; unfold written_names; set_solver] ].

Lemma placeholder_nonempty name : placeholder name <> EmptyString.
Proof. discriminate. Qed.

Lemma identity_shape newrelic pod appIndex env rm env' rm' :
  injectCommonSDKConfig_identity newrelic pod appIndex env rm = Some (env', rm') ->
  appends (written_names consts) env env' /\
  map_index rm' semconv.K8SNodeNameKey <> EmptyString.
Proof.
  unfold instrumentation.injectCommonSDKConfig_identity. intros H. cbv zeta in H.
  destruct (if _ =? -1 then _ else Some env) as [env1|] eqn:E1 in H; [|done].
  assert (appends (written_names consts) env env1) as X1.
  { destruct (_ =? -1) in E1; [destruct (chooseServiceName _ _ _) in E1; [|done]|];
      simplify_eq/=; solve_appends. }
  clear E1. cbn [mbind option_bind] in H.
  remember (if negb (String.eqb (v1alpha1.InstrumentationSpec.Endpoint _) _)
            then _ else env1) as env2 eqn:E2 in H.
  assert (appends (written_names consts) env1 env2) as X2.
  { subst env2. repeat case_match; solve_appends. }
  clear E2.
  destruct (if String.eqb (map_index rm semconv.K8SPodNameKey) _ then _ else _)
    as [env3 rm3] eqn:E3 in H.
  assert (appends (written_names consts) env2 env3) as X3.
  { destruct (String.eqb _ _) in E3; simplify_eq; solve_appends. }
  clear E3.
  destruct (if v1alpha1.Resource.AddK8sUIDAttributes _ then _ else _)
    as [env4 rm4] eqn:E4 in H.
  assert (appends (written_names consts) env3 env4) as X4.
  { repeat case_match; simplify_eq; solve_appends. }
  clear E4.
  destruct (if _ =? -1 then Some false else _) as [hasVersion|] in H; [|done].
  cbn [mbind option_bind] in H.
  destruct (if negb hasVersion then _ else _) as [rm5|] in H; [|done].
  cbn [mbind option_bind] in H.
  destruct (String.eqb_spec (map_index rm5 semconv.K8SNodeNameKey) EmptyString)
    as [Heq|Hne]; simplify_eq.
  - split.
    + repeat (eapply appends_trans; [eassumption|]). solve_appends.
    + unfold map_index. rewrite lookup_insert_eq. apply placeholder_nonempty.
  - split; [|done]. repeat (eapply appends_trans; [eassumption|]). solve_appends.
Qed.

Lemma at_index_getIndexOfEnv env name :
  getIndexOfEnv env name <> -1 ->
  exists i e, getIndexOfEnv env name = Z.of_nat i /\ first_named name env i e /\
              at_index env (getIndexOfEnv env name) = Some e.
Proof.
  intros Hne. destruct (getIndexOfEnv_cases env name) as [[? _]|(i & e & Hi & Hfirst)];
    [done|].
  exists i, e. rewrite Hi. split; [done|]. split; [done|].
  by eapply first_named_at_index.
Qed.

Lemma chooseServiceName_is_Some pod rm index c :
  at_index (Pod.Containers pod) index = Some c ->
  is_Some (chooseServiceName pod rm index).
Proof.
  intros Hc. unfold chooseServiceName. rewrite Hc. repeat case_match; eauto.
Qed.

Lemma chooseServiceVersion_is_Some pod index c :
  at_index (Pod.Containers pod) index = Some c ->
  is_Some (chooseServiceVersion pod index).
Proof.
  intros Hc. unfold chooseServiceVersion. rewrite Hc. simpl.
  rewrite at_index_last.
  pose proof (Split_nonempty (Container.Image c) ":") as Hne.
  destruct (strings.Split (Container.Image c) ":") as [|p parts] using rev_ind; [done|].
  rewrite last_snoc. simpl. case_match; eauto.
Qed.

Lemma identity_total newrelic pod appIndex env rm c :
  at_index (Pod.Containers pod) appIndex = Some c ->
  is_Some (injectCommonSDKConfig_identity newrelic pod appIndex env rm).
Proof.
  intros Hc. unfold instrumentation.injectCommonSDKConfig_identity. cbv zeta.
  destruct (chooseServiceName_is_Some pod rm appIndex c Hc) as [name ->].
  destruct (chooseServiceVersion_is_Some pod appIndex c Hc) as [vsn ->].
  cbn [mbind option_bind].
  destruct (if _ =? -1 then _ else Some env) as [env1|] eqn:E1; [|by case_match].
  clear E1. cbn [mbind option_bind].
  destruct (if String.eqb (map_index rm semconv.K8SPodNameKey) _ then _ else _)
    as [env3 rm3].
  destruct (if v1alpha1.Resource.AddK8sUIDAttributes _ then _ else _) as [env4 rm4].
  destruct (Z.eqb_spec (getIndexOfEnv env4 (constants.EnvOTELResourceAttrs consts)) (-1))
    as [_|Hpresent].
  - cbn [mbind option_bind negb].
    repeat (case_match; cbn [mbind option_bind]); eauto.
  - destruct (at_index_getIndexOfEnv _ _ Hpresent) as (i & e & _ & _ & ->).
    cbn [mbind option_bind].
    repeat (case_match; cbn [mbind option_bind]); eauto.
Qed.

Lemma attributes_shape env rm :
  exists envB,
    injectCommonSDKConfig_attributes env rm = Some envB /\
    ((unnamed (constants.EnvOTELResourceAttrs consts) env /\
      envB = env ++ [EnvVar.mk (constants.EnvOTELResourceAttrs consts)
                       (resourceMapToStr rm) None]) \/
     (exists i e,
        first_named (constants.EnvOTELResourceAttrs consts) env i e /\
        envB = <[i := EnvVar.with_Value e
                         (EnvVar.Value e +:+ attributes_suffix e rm)]> env)).
Proof.
  unfold instrumentation.injectCommonSDKConfig_attributes. cbv zeta.
  destruct (getIndexOfEnv_cases env (constants.EnvOTELResourceAttrs consts))
    as [[-> Hun]|(i & e & Hi & Hfirst)].
  - eexists. split; [reflexivity|]. by left.
  - rewrite Hi. destruct (Z.eqb_spec (Z.of_nat i) (-1)); [lia|].
    rewrite (first_named_at_index _ _ _ _ Hfirst). cbn [mbind option_bind].
    rewrite Nat2Z.id. eexists. split; [reflexivity|]. right. by exists i, e.
Qed.

Lemma tracing_shape newrelic env :
  exists envC,
    appends (written_names consts) env envC /\
    injectCommonSDKConfig_tracing newrelic env =
    moveEnvToListEnd envC (getIndexOfEnv envC (constants.EnvOTELResourceAttrs consts)).
Proof.
  unfold instrumentation.injectCommonSDKConfig_tracing. cbv zeta.
  repeat case_match; (eexists; split; [|reflexivity]); solve_appends.
Qed.

Lemma move_first_named name envs A i e :
  first_named name envs i e ->
  moveEnvToListEnd (envs ++ A) (getIndexOfEnv (envs ++ A) name) =
  take i envs ++ drop (S i) envs ++ A ++ [e].
Proof.
  intros Hfirst. pose proof (first_named_app _ _ A _ _ Hfirst) as Hfirst'.
  rewrite (getIndexOfEnv_first _ _ _ _ Hfirst').
  destruct Hfirst as (Hi & _), Hfirst' as (Hi' & _).
  apply lookup_lt_Some in Hi as Hlt.
  rewrite (moveEnvToListEnd_in_range _ _ _ Hi').
  rewrite take_app_le, drop_app_le by lia. by rewrite <- !app_assoc.
Qed.

(** The environment list [injectCommonSDKConfig] leaves: the variables it
    appends ([A1] before and [A2] after the attributes are written) and,
    last, the resource-attributes variable, which is new when the list
    had none and else the first one of the list, its value extended. *)
Lemma env_shape newrelic pod appIndex env0 rm c :
  at_index (Pod.Containers pod) appIndex = Some c ->
  exists envs A1 A2 rm',
    injectCommonSDKConfig_env newrelic pod appIndex env0 rm = Some envs /\
    Forall (fun e => EnvVar.Name e ∈ written_names consts) A1 /\
    Forall (fun e => EnvVar.Name e ∈ written_names consts) A2 /\
    map_index rm' semconv.K8SNodeNameKey <> EmptyString /\
    ((unnamed (constants.EnvOTELResourceAttrs consts) (env0 ++ A1) /\
      envs = env0 ++ A1 ++ A2 ++
             [EnvVar.mk (constants.EnvOTELResourceAttrs consts)
                (resourceMapToStr rm') None]) \/
     (exists i e,
        first_named (constants.EnvOTELResourceAttrs consts) (env0 ++ A1) i e /\
        envs = take i (env0 ++ A1) ++ drop (S i) (env0 ++ A1) ++ A2 ++
               [EnvVar.with_Value e (EnvVar.Value e +:+ attributes_suffix e rm')])).
Proof.
  intros Hc. unfold instrumentation.injectCommonSDKConfig_env.
  destruct (identity_total newrelic pod appIndex env0 rm c Hc) as [[envA rm'] Hid].
  rewrite Hid. cbn [mbind option_bind].
  destruct (identity_shape _ _ _ _ _ _ _ Hid) as ((A1 & -> & HA1) & Hnode).
  destruct (attributes_shape (env0 ++ A1) rm') as (envB & -> & Hcases).
  cbn [mbind option_bind].
  destruct (tracing_shape newrelic envB) as (envC & (A2 & -> & HA2) & ->).
  eexists _, A1, A2, rm'. split; [reflexivity|]. do 3 (split; [done|]).
  destruct Hcases as [[Hun ->]|(i & e & Hfirst & ->)].
  - left. split; [done|].
    rewrite (move_first_named _ _ A2 _ _
               (first_named_snoc _ _ (EnvVar.mk _ _ None) Hun eq_refl)).
    rewrite take_app_length, drop_ge by (rewrite !length_app; simpl; lia).
    simpl. by rewrite <- !app_assoc.
  - right. exists i, e. split; [done|].
    rewrite (move_first_named _ _ A2 i _
               (first_named_insert _ _ _ _ (EnvVar.with_Value e _) Hfirst
                  (proj1 (proj2 Hfirst)))).
    by rewrite take_insert_ge, drop_insert_lt by lia.
Qed.

(** *** The attribute map *)

(** A loop that copies the accepted entries of [m] into [res0]. *)
Lemma map_fold_copy_lookup (accept : string -> string -> bool)
    (res0 m : gmap string string) (k : string) :
  map_fold (fun k v res => if accept k v then <[k := v]> res else res) res0 m !! k =
  match m !! k with
  | Some v => if accept k v then Some v else res0 !! k
  | None => res0 !! k
  end.
Proof.
  revert k.
  apply (map_fold_weak_ind
           (fun (r : gmap string string) m => forall k,
              r !! k = match m !! k with
                       | Some v => if accept k v then Some v else res0 !! k
                       | None => res0 !! k
                       end)).
  - intros k. by rewrite lookup_empty.
  - intros i x m' r Hfresh IH k. destruct (decide (i = k)) as [->|Hne].
    + rewrite lookup_insert_eq. destruct (accept k x).
      * by rewrite lookup_insert_eq.
      * rewrite IH, Hfresh. done.
    + rewrite lookup_insert_ne by done. destruct (accept i x).
      * rewrite lookup_insert_ne by done. apply IH.
      * apply IH.
Qed.

Lemma createResourceMap_unfold fuel newrelic ns pod index c w :
  at_index (Pod.Containers pod) index = Some c ->
  let resource := v1alpha1.InstrumentationSpec.Resource (v1alpha1.Instrumentation.Spec newrelic) in
  let existingRes := existing_keys consts c in
  createResourceMap fuel newrelic ns pod index w =
  match addParentResourceLabels fuel (v1alpha1.Resource.AddK8sUIDAttributes resource) ns
          (Pod.ObjectMeta pod) (direct_topology ns pod c) w with
  | Done (k8sResources, w') =>
      Done (map_fold
              (fun k v res =>
                 if negb (set_index existingRes k) && negb (String.eqb v EmptyString)
                 then <[k := v]> res else res)
              (map_fold
                 (fun k v res => if negb (set_index existingRes k) then <[k := v]> res else res)
                 ∅ (v1alpha1.Resource.Attributes resource))
              k8sResources, w')
  | Panic => Panic
  | OutOfFuel => OutOfFuel
  end.
Proof.
  intros Hc resource existingRes. subst existingRes. unfold existing_keys.
  unfold instrumentation.createResourceMap. rewrite Hc.
  unfold instrumentation.bind at 1. cbn [instrumentation.lift]. cbv zeta.
  destruct (getIndexOfEnv_cases (Container.Env c) (constants.EnvOTELResourceAttrs consts))
    as [[Hidx Hun]|(i & e & Hidx & Hfirst)]; rewrite Hidx.
  - reflexivity.
  - rewrite (first_named_at_index _ _ _ _ Hfirst).
    destruct (Z.gtb_spec (Z.of_nat i) (-1)); [|lia]. reflexivity.
Qed.

Lemma createResourceMap_Done_container fuel newrelic ns pod index w res w' :
  createResourceMap fuel newrelic ns pod index w = Done (res, w') ->
  exists c, at_index (Pod.Containers pod) index = Some c.
Proof.
  unfold instrumentation.createResourceMap, instrumentation.bind at 1.
  destruct (at_index (Pod.Containers pod) index) as [c|]; [eauto|done].
Qed.


(** *** The resource-attributes variable comes last *)

Lemma at_index_set_container pod index c c' :
  at_index (Pod.Containers pod) index = Some c ->
  at_index (Pod.Containers (set_container pod index c')) index = Some c'.
Proof.
  unfold at_index, set_container. simpl. destruct (0 <=? index); [|done].
  intros Hc. apply list_lookup_insert_eq. by eapply lookup_lt_Some.
Qed.

Lemma injectCommonSDKConfig_run fuel newrelic ns pod agentIndex appIndex container rm w w' :
  at_index (Pod.Containers pod) agentIndex = Some container ->
  createResourceMap fuel newrelic ns pod appIndex w = Done (rm, w') ->
  exists envs,
    injectCommonSDKConfig_env newrelic pod appIndex (Container.Env container) rm
      = Some envs /\
    injectCommonSDKConfig fuel newrelic ns pod agentIndex appIndex w =
    Done (set_container pod agentIndex (Container.with_Env container envs), w').
Proof.
  intros Hagent Hmap.
  destruct (createResourceMap_Done_container _ _ _ _ _ _ _ _ Hmap) as [c Hc].
  destruct (env_shape newrelic pod appIndex (Container.Env container) rm c Hc)
    as (envs & _ & _ & _ & Henv & _).
  exists envs. split; [done|].
  unfold instrumentation.injectCommonSDKConfig, instrumentation.bind.
  rewrite Hagent. cbn [instrumentation.lift]. rewrite Hmap, Henv. reflexivity.
Qed.







(** *** A second run *)











(** *** Insert-if-absent *)

Lemma getIndexOfEnv_absent_iff name envs :
  (getIndexOfEnv envs name =? -1) = true <-> unnamed name envs.
Proof.
  rewrite Z.eqb_eq. split; [|apply getIndexOfEnv_unnamed].
  intros Hidx. destruct (getIndexOfEnv_cases envs name) as [[_ Hun]|(i & e & Hi & _)];
    [done|lia].
Qed.


Lemma present_of_test name envs :
  (getIndexOfEnv envs name =? -1) = false -> ~ unnamed name envs.
Proof. intros Hidx Hun%getIndexOfEnv_absent_iff. congruence. Qed.

Lemma present_app_l name envs A : ~ unnamed name envs -> ~ unnamed name (envs ++ A).
Proof. intros Hsome [Hun _]%unnamed_app. done. Qed.

Lemma present_snoc name envs e : EnvVar.Name e = name -> ~ unnamed name (envs ++ [e]).
Proof.
  intros Hname [_ Hun]%unnamed_app. unfold unnamed in Hun.
  by apply Forall_cons in Hun as [? _].
Qed.








Lemma injectCommonSDKConfig_Done fuel newrelic ns pod agentIndex appIndex w pod1 w1 :
  injectCommonSDKConfig fuel newrelic ns pod agentIndex appIndex w = Done (pod1, w1) ->
  exists container rm,
    at_index (Pod.Containers pod) agentIndex = Some container /\
    createResourceMap fuel newrelic ns pod appIndex w = Done (rm, w1).
Proof.
  unfold instrumentation.injectCommonSDKConfig, instrumentation.bind.
  destruct (at_index (Pod.Containers pod) agentIndex) as [container|]; [|done].
  cbn [instrumentation.lift].
  destruct (createResourceMap fuel newrelic ns pod appIndex w) as [[rm w']| |];
    [|done|done].
  destruct (instrumentation.injectCommonSDKConfig_env _ _ _ _ _ _); [|done].
  cbn [instrumentation.lift]. unfold instrumentation.ret. intros [= _ <-]. eauto.
Qed.



End engine_properties.

(** ** The orchestrator *)

Section orchestrator_properties.

Context (World error : Type).
Context (client_Get : types.NamespacedName.t -> World -> (error + appsv1.ReplicaSet.t) * World).
Context (apierrors_IsNotFound : error -> bool).
Context (strings_ToLower : string -> string).
Context (consts : constants.t).
Context (apm_InjectJavaagent apm_InjectNodeJSSDK apm_InjectPythonSDK
         apm_InjectDotNetSDK apm_InjectPhpagent :
           v1alpha1.AgentSpec.t -> Pod.t -> Z -> Pod.t * option error).
Context (apm_InjectGoSDK : v1alpha1.AgentSpec.t -> Pod.t -> Pod.t * option error).
Context (annotationValue : ObjectMeta.t -> ObjectMeta.t -> string -> string).
Context (annotationInjectGoContainerName : string).

Local Abbreviation inject_languages :=
  (instrumentation.inject_languages World error client_Get apierrors_IsNotFound
     strings_ToLower consts apm_InjectJavaagent apm_InjectNodeJSSDK apm_InjectPythonSDK
     apm_InjectDotNetSDK apm_InjectPhpagent apm_InjectGoSDK annotationValue
     annotationInjectGoContainerName).
Local Abbreviation inject :=
  (instrumentation.inject World error client_Get apierrors_IsNotFound
     strings_ToLower consts apm_InjectJavaagent apm_InjectNodeJSSDK apm_InjectPythonSDK
     apm_InjectDotNetSDK apm_InjectPhpagent apm_InjectGoSDK annotationValue
     annotationInjectGoContainerName).

(** C6 (amended): the container search, in [inject] and in
    [getContainerIndex], settles on the last container that bears the
    requested name, which is the first one when no other container shares
    the name, and on 0 when no container bears it. *)
Theorem container_search_last_match (containerName : string) (pod : Pod.t) :
  let i := getContainerIndex containerName pod in
  ((forall c, c ∈ Pod.Containers pod -> Container.Name c <> containerName) -> i = 0) /\
  (forall (j : nat) c,
     Pod.Containers pod !! j = Some c -> Container.Name c = containerName ->
     Z.of_nat j <= i /\
     (exists c', at_index (Pod.Containers pod) i = Some c' /\
                 Container.Name c' = containerName) /\
     ((forall (j' : nat) c', Pod.Containers pod !! j' = Some c' ->
                             Container.Name c' = containerName -> j' = j) ->
      i = Z.of_nat j)) /\
  (forall fuel insts ns w,
     Pod.Containers pod <> [] ->
     inject fuel insts ns pod containerName w = inject_languages fuel insts ns i pod w).
Proof.
  pose proof (container_search_spec containerName (Pod.Containers pod)) as Hspec.
  simpl in *. unfold getContainerIndex. destruct Hspec as (_ & Hnone & Hlast).
  split; [done|]. split.
  - intros j c Hj Hname. destruct (Hlast j c Hj Hname) as (Hle & c' & Hc' & Hn').
    split; [done|]. split; [by exists c'|]. intros Honly.
    unfold at_index in Hc'. destruct (0 <=? _) eqn:Hpos in Hc'; [|done].
    apply Z.leb_le in Hpos. apply Honly in Hc'; [|done]. lia.
  - intros fuel insts ns w Hne. unfold instrumentation.inject.
    destruct (Z.ltb_spec (len (Pod.Containers pod)) 1) as [Hlt|_]; [|done].
    unfold len in Hlt. destruct (Pod.Containers pod); [done|simpl in Hlt; lia].
Qed.

(** C10: on a pod without containers [inject] returns the pod as it
    received it, whatever the language injectors and the client are, and
    makes no client call. *)
Theorem inject_no_containers fuel insts ns (pod : Pod.t) (containerName : string) w :
  Pod.Containers pod = [] ->
  inject fuel insts ns pod containerName w = Done (pod, w).
Proof. intros Hnil. unfold instrumentation.inject. by rewrite Hnil. Qed.

End orchestrator_properties.

(** ** The properties on the sample inputs *)

Lemma validate_rejects_unprefixed_witness :
  v1alpha1.validate
    (v1alpha1.Instrumentation.mk (sample.meta "newrelic" [])
       (sample.spec ∅ [EnvVar.mk "OTEL_LOG_LEVEL" "debug" None])) = None.
Proof.
  apply (proj2 (proj2 (validate_rejects_unprefixed _))). cbn.
  apply Forall_cons. split; [by right|constructor].
Defined.

Lemma chooseServiceVersion_last_segment_witness :
  chooseServiceVersion sample.web 0 = Some "1.2.3"%string.
Proof.
  by apply (chooseServiceVersion_last_segment sample.web 0
              (Container.mk "app" "app:1.2.3" []) eq_refl).
Defined.

Lemma chooseServiceName_priority_witness :
  chooseServiceName sample.web {[ semconv.K8SJobNameKey := "nightly"%string ]} 0
  = Some "nightly"%string.
Proof.
  transitivity (Some (map_index {[ semconv.K8SJobNameKey := "nightly"%string ]}
                        semconv.K8SJobNameKey)); [|by vm_compute].
  apply (proj1 (chooseServiceName_priority sample.web
                  {[ semconv.K8SJobNameKey := "nightly"%string ]} 0) 2%nat
           semconv.K8SJobNameKey eq_refl).
  - by vm_compute.
  - intros j key' Hlt Hj. destruct j as [|[|j]]; [| |lia];
      injection Hj as Hj; subst key'; by vm_compute.
Defined.

Lemma container_search_last_match_witness :
  getContainerIndex "sidecar" sample.twins = 0 /\
  getContainerIndex "app" sample.twins = 1.
Proof.
  pose proof (container_search_last_match sample.World sample.error sample.client_Get
                sample.IsNotFound strings.asciiToLower sample.consts
                sample.injector sample.injector sample.injector sample.injector
                sample.injector sample.injectGo sample.annotationValue
                "instrumentation.newrelic.com/go-container-name") as Hsearch.
  split.
  - apply (proj1 (Hsearch "sidecar"%string sample.twins)).
    intros c Hin. apply list_elem_of_In in Hin.
    destruct Hin as [<-|[<-|[]]]; discriminate.
  - destruct (proj1 (proj2 (Hsearch "app"%string sample.twins)) 1%nat
                (Container.mk "app" "app:2.0" []) eq_refl eq_refl) as (Hle & (c' & Hc' & _) & _).
    unfold at_index in Hc'. destruct (0 <=? _) eqn:Hpos in Hc'; [|discriminate Hc'].
    apply lookup_lt_Some in Hc'. simpl in Hc', Hle. apply Z.leb_le in Hpos. lia.
Defined.

(** C6, as stated, fails: with two containers of the requested name the
    search returns the index of the second one, not of the first. *)
Lemma container_search_not_first_match :
  ~ (forall containerName pod (j : nat) c,
       Pod.Containers pod !! j = Some c -> Container.Name c = containerName ->
       (forall (j' : nat) c', (j' < j)%nat -> Pod.Containers pod !! j' = Some c' ->
                              Container.Name c' <> containerName) ->
       getContainerIndex containerName pod = Z.of_nat j).
Proof.
  intros Hfirst.
  specialize (Hfirst "app"%string sample.twins 0%nat _ eq_refl eq_refl).
  discriminate Hfirst. intros j' c' Hlt. lia.
Qed.

Lemma inject_no_containers_witness :
  sample.inject 1 sample.noInsts sample.ns sample.bare "app" 0%nat = Done (sample.bare, 0%nat).
Proof. by apply inject_no_containers. Defined.







(** C2, at a failing input: the container declares
    [k8s.node.name=edge-7]; after [injectCommonSDKConfig] the variable
    declares the key [k8s.node.name] a second time, with another value. *)
Lemma declared_node_name_written_twice :
  exists pod',
    sample.injectCommonSDKConfig 1 sample.newrelic sample.ns sample.declared 0 0 0%nat
    = Done (pod', 0%nat) /\
    (Container.Env <$> Pod.Containers pod') =
    [[EnvVar.mk "OTEL_SERVICE_NAME" "web-1" None;
      fieldRefEnv "OTEL_RESOURCE_ATTRIBUTES_NODE_NAME" "spec.nodeName";
      EnvVar.mk "OTEL_RESOURCE_ATTRIBUTES"
        ("k8s.node.name=edge-7"
         +:+ ",k8s.container.name=app,k8s.namespace.name=shop"
         +:+ ",k8s.node.name=$(OTEL_RESOURCE_ATTRIBUTES_NODE_NAME)"
         +:+ ",k8s.pod.name=web-1,service.instance.id=shop.web-1.app"
         +:+ ",service.version=1.2.3") None]].
Proof. eexists. split; vm_compute; reflexivity. Qed.

(** * Further properties *)

(** ** Defaulting and validation (package [v1alpha1]) *)

Lemma defaultImage_idempotent annotations annotation block :
  v1alpha1.defaultImage annotations annotation
    (v1alpha1.defaultImage annotations annotation block)
  = v1alpha1.defaultImage annotations annotation block.
Proof.
  unfold v1alpha1.defaultImage.
  destruct (String.eqb_spec (v1alpha1.AgentSpec.Image block) EmptyString) as [Hempty|Hset].
  - destruct (annotations !! annotation) as [val|] eqn:Hann;
      cbn [v1alpha1.AgentSpec.Image v1alpha1.AgentSpec.Env].
    + by destruct (String.eqb val EmptyString).
    + by rewrite Hempty.
  - by apply String.eqb_neq in Hset as ->.
Qed.

Lemma defaultImage_spec annotations annotation block :
  v1alpha1.AgentSpec.Env (v1alpha1.defaultImage annotations annotation block)
  = v1alpha1.AgentSpec.Env block /\
  (v1alpha1.AgentSpec.Image block <> EmptyString ->
   v1alpha1.defaultImage annotations annotation block = block) /\
  (v1alpha1.AgentSpec.Image block = EmptyString ->
   v1alpha1.AgentSpec.Image (v1alpha1.defaultImage annotations annotation block)
   = map_index annotations annotation).
Proof.
  unfold v1alpha1.defaultImage, map_index.
  destruct (String.eqb_spec (v1alpha1.AgentSpec.Image block) EmptyString) as [Hempty|Hset].
  - destruct (annotations !! annotation); simpl; by rewrite ?Hempty.
  - done.
Qed.

(** X1: [Default] only fills blanks.  The managed-by label is not empty
    afterwards, a label map that had a non-empty one is returned as it was,
    and no other label changes; a language block with an image is returned
    as it was, and a block without one gets the value of its annotation
    (none when the annotation is missing); the rest of the metadata and
    every other field of the spec stay as they were. *)
Theorem Default_fills_blanks (r : v1alpha1.Instrumentation.t) :
  let meta := v1alpha1.Instrumentation.ObjectMeta r in
  let meta' := v1alpha1.Instrumentation.ObjectMeta (v1alpha1.Default r) in
  let spec := v1alpha1.Instrumentation.Spec r in
  let spec' := v1alpha1.Instrumentation.Spec (v1alpha1.Default r) in
  map_index (ObjectMeta.Labels meta') "app.kubernetes.io/managed-by" <> EmptyString /\
  (map_index (ObjectMeta.Labels meta) "app.kubernetes.io/managed-by" <> EmptyString ->
   ObjectMeta.Labels meta' = ObjectMeta.Labels meta) /\
  (map_index (ObjectMeta.Labels meta) "app.kubernetes.io/managed-by" = EmptyString ->
   map_index (ObjectMeta.Labels meta') "app.kubernetes.io/managed-by"
   = "k8s-agents-operator"%string) /\
  (forall k, k <> "app.kubernetes.io/managed-by"%string ->
             ObjectMeta.Labels meta' !! k = ObjectMeta.Labels meta !! k) /\
  meta' = with_labels meta (ObjectMeta.Labels meta') /\
  (forall (i : nat) block annotation block',
     image_defaults spec !! i = Some (block, annotation) ->
     language_blocks spec' !! i = Some block' ->
     v1alpha1.AgentSpec.Env block' = v1alpha1.AgentSpec.Env block /\
     (v1alpha1.AgentSpec.Image block <> EmptyString -> block' = block) /\
     (v1alpha1.AgentSpec.Image block = EmptyString ->
      v1alpha1.AgentSpec.Image block' = map_index (ObjectMeta.Annotations meta) annotation)) /\
  v1alpha1.InstrumentationSpec.Endpoint spec' = v1alpha1.InstrumentationSpec.Endpoint spec /\
  v1alpha1.InstrumentationSpec.Resource spec' = v1alpha1.InstrumentationSpec.Resource spec /\
  v1alpha1.InstrumentationSpec.Propagators spec' = v1alpha1.InstrumentationSpec.Propagators spec /\
  v1alpha1.InstrumentationSpec.Sampler spec' = v1alpha1.InstrumentationSpec.Sampler spec /\
  v1alpha1.InstrumentationSpec.Env spec' = v1alpha1.InstrumentationSpec.Env spec.
Proof.
  destruct r as [meta spec]. cbn [v1alpha1.Instrumentation.ObjectMeta
    v1alpha1.Instrumentation.Spec v1alpha1.Default]. cbv zeta.
  cbn [ObjectMeta.Labels ObjectMeta.Annotations ObjectMeta.OwnerReferences with_owners
       with_labels ObjectMeta.Name ObjectMeta.Namespace ObjectMeta.UID
       v1alpha1.InstrumentationSpec.Endpoint v1alpha1.InstrumentationSpec.Resource
       v1alpha1.InstrumentationSpec.Propagators v1alpha1.InstrumentationSpec.Sampler
       v1alpha1.InstrumentationSpec.Env].
  destruct (String.eqb_spec (map_index (ObjectMeta.Labels meta) "app.kubernetes.io/managed-by")
              EmptyString) as [Hempty|Hset].
  - split; [unfold map_index; by rewrite lookup_insert_eq|].
    split; [done|]. split; [unfold map_index; by rewrite lookup_insert_eq|].
    split; [intros k Hk; by rewrite lookup_insert_ne|].
    split; [done|]. split; [|done].
    intros i block annotation block' Hi Hi'.
    do 6 (destruct i as [|i]; [injection Hi as <- <-; injection Hi' as <-;
                                apply defaultImage_spec|]).
    done.
  - split; [done|]. split; [done|]. split; [done|]. split; [done|].
    split; [by destruct meta|]. split; [|done].
    intros i block annotation block' Hi Hi'.
    do 6 (destruct i as [|i]; [injection Hi as <- <-; injection Hi' as <-;
                                apply defaultImage_spec|]).
    done.
Qed.

(** X2: [Default] is idempotent: defaulting a defaulted object changes
    nothing. *)
Theorem Default_idempotent (r : v1alpha1.Instrumentation.t) :
  v1alpha1.Default (v1alpha1.Default r) = v1alpha1.Default r.
Proof.
  destruct r as [meta spec]. unfold v1alpha1.Default. cbv zeta.
  cbn [v1alpha1.Instrumentation.ObjectMeta v1alpha1.Instrumentation.Spec
       ObjectMeta.Labels ObjectMeta.Annotations ObjectMeta.OwnerReferences
       ObjectMeta.Name ObjectMeta.Namespace ObjectMeta.UID
       v1alpha1.InstrumentationSpec.Endpoint v1alpha1.InstrumentationSpec.Resource
       v1alpha1.InstrumentationSpec.Propagators v1alpha1.InstrumentationSpec.Sampler
       v1alpha1.InstrumentationSpec.Env v1alpha1.InstrumentationSpec.Java
       v1alpha1.InstrumentationSpec.NodeJS v1alpha1.InstrumentationSpec.Python
       v1alpha1.InstrumentationSpec.DotNet v1alpha1.InstrumentationSpec.Php
       v1alpha1.InstrumentationSpec.Go].
  rewrite !defaultImage_idempotent. f_equal. f_equal.
  destruct (String.eqb_spec (map_index (ObjectMeta.Labels meta) "app.kubernetes.io/managed-by")
              EmptyString) as [Hempty|Hset].
  - unfold map_index at 1. by rewrite lookup_insert_eq.
  - by apply String.eqb_neq in Hset as ->.
Qed.

(** X3: defaulting does not change the verdict of validation: an object is
    accepted on creation or update after [Default] exactly when it is
    accepted before, with the same error otherwise; [ValidateUpdate] does
    not depend on the old object. *)
Theorem Default_keeps_validation {Object : Type} (r : v1alpha1.Instrumentation.t)
    (old old' : Object) :
  v1alpha1.ValidateCreate (v1alpha1.Default r) = v1alpha1.ValidateCreate r /\
  v1alpha1.ValidateUpdate (v1alpha1.Default r) old = v1alpha1.ValidateCreate r /\
  v1alpha1.ValidateUpdate r old = v1alpha1.ValidateUpdate r old'.
Proof.
  unfold v1alpha1.ValidateCreate, v1alpha1.ValidateUpdate.
  assert (v1alpha1.validate (v1alpha1.Default r) = v1alpha1.validate r) as Hsame.
  { rewrite !validate_declared. f_equal. destruct r as [meta spec].
    unfold declared_envs, v1alpha1.Default. cbv zeta.
    cbn [v1alpha1.Instrumentation.Spec v1alpha1.InstrumentationSpec.Env
         v1alpha1.InstrumentationSpec.Java v1alpha1.InstrumentationSpec.NodeJS
         v1alpha1.InstrumentationSpec.Python v1alpha1.InstrumentationSpec.DotNet
         v1alpha1.InstrumentationSpec.Php v1alpha1.InstrumentationSpec.Go].
    by rewrite !(proj1 (defaultImage_spec _ _ _)). }
  by rewrite Hsame.
Qed.

Lemma validateEnv_first envs msg :
  v1alpha1.validateEnv envs = Some msg <->
  exists (i : nat) env,
    envs !! i = Some env /\ unprefixed env /\
    (forall (j : nat) env', (j < i)%nat -> envs !! j = Some env' -> ~ unprefixed env') /\
    msg = v1alpha1.envNameError +:+ EnvVar.Name env.
Proof.
  revert msg. induction envs as [|env envs IH]; intros msg; simpl.
  - split; [done|]. by intros (i & env & Hi & _).
  - destruct (_ && _) eqn:Htest.
    + apply unprefixed_test in Htest. split.
      * intros [= <-]. exists 0%nat, env. split; [done|]. split; [done|].
        split; [intros; lia|done].
      * intros (i & env' & Hi & Hbad & Hmin & ->). destruct i as [|i].
        -- by injection Hi as <-.
        -- destruct (Hmin 0%nat env ltac:(lia) eq_refl Htest).
    + assert (~ unprefixed env) as Hgood.
      { intros Hbad%unprefixed_test. congruence. }
      rewrite IH. split.
      * intros (i & env' & Hi & Hbad & Hmin & ->). exists (S i), env'.
        split; [done|]. split; [done|]. split; [|done].
        intros [|j] env'' Hlt Hj; simpl in Hj; [by injection Hj as <-|].
        apply (Hmin j); [lia|done].
      * intros (i & env' & Hi & Hbad & Hmin & ->). destruct i as [|i].
        -- injection Hi as <-. done.
        -- exists i, env'. split; [done|]. split; [done|]. split; [|done].
           intros j env'' Hlt Hj. apply (Hmin (S j)); [lia|done].
Qed.

(** X4: the error of [validate] names the first offending variable in the
    order in which the lists are checked: the common list, then Java,
    NodeJS, Python, DotNet, Php and Go. *)
Theorem validate_reports_first (r : v1alpha1.Instrumentation.t) (msg : string) :
  v1alpha1.validate r = Some msg <->
  exists (i : nat) env,
    declared_envs r !! i = Some env /\ unprefixed env /\
    (forall (j : nat) env', (j < i)%nat -> declared_envs r !! j = Some env' ->
                            ~ unprefixed env') /\
    msg = v1alpha1.envNameError +:+ EnvVar.Name env.
Proof. rewrite validate_declared. apply validateEnv_first. Qed.

(** ** The environment list editor and the container search *)

(** X5: [getIndexOfEnv] returns -1 exactly when no variable bears the name,
    and else the index of the first variable that bears it; the result is
    always between -1 and [len - 1]. *)
Theorem getIndexOfEnv_first_match (envs : list EnvVar.t) (name : string) :
  (getIndexOfEnv envs name = -1 <-> unnamed name envs) /\
  (forall i : nat, getIndexOfEnv envs name = Z.of_nat i <-> exists e, first_named name envs i e) /\
  -1 <= getIndexOfEnv envs name < len envs.
Proof.
  destruct (getIndexOfEnv_cases envs name) as [[Hidx Hun]|(i & e & Hidx & Hfirst)].
  - split; [by split|]. split.
    + intros i. split; [lia|]. intros [e' He'].
      by destruct (first_named_not_unnamed _ _ _ _ He' Hun).
    + unfold len. lia.
  - split.
    + split; [lia|]. intros Hun. by destruct (first_named_not_unnamed _ _ _ _ Hfirst Hun).
    + split.
      * intros i'. split.
        -- intros Hi'. assert (i' = i) as -> by lia. by exists e.
        -- intros [e' He']. by rewrite (getIndexOfEnv_first _ _ _ _ He').
      * destruct Hfirst as (Hi & _). apply lookup_lt_Some in Hi. unfold len. lia.
Qed.

(** X6: [moveEnvToListEnd] neither loses nor repeats a variable, whatever
    the index: its result is a permutation of the list, of the same length;
    moving the last variable changes nothing. *)
Theorem moveEnvToListEnd_permutation (envs : list EnvVar.t) (idx : Z) :
  moveEnvToListEnd envs idx ≡ₚ envs /\
  length (moveEnvToListEnd envs idx) = length envs /\
  moveEnvToListEnd envs (len envs - 1) = envs.
Proof.
  assert (moveEnvToListEnd envs idx ≡ₚ envs) as Hperm.
  { destruct (Z.ltb_spec idx 0) as [Hneg|Hpos].
    { rewrite moveEnvToListEnd_out_of_range by lia. done. }
    destruct (envs !! Z.to_nat idx) as [e|] eqn:Hi.
    - rewrite <- (Z2Nat.id idx) by done.
      rewrite (moveEnvToListEnd_in_range _ _ _ Hi).
      rewrite <- (take_drop_middle envs _ _ Hi) at 3.
      apply Permutation_app_head. symmetry. apply Permutation_cons_append.
    - apply lookup_ge_None in Hi. rewrite moveEnvToListEnd_out_of_range; [done|].
      unfold len. lia. }
  split; [done|]. split; [by rewrite Hperm|].
  destruct envs as [|e envs _] using rev_ind.
  - by apply moveEnvToListEnd_out_of_range; left.
  - replace (len (envs ++ [e]) - 1) with (Z.of_nat (length envs))
      by (unfold len; rewrite length_app; simpl; lia).
    rewrite (moveEnvToListEnd_in_range _ _ e) by (by rewrite lookup_app_r, Nat.sub_diag).
    rewrite take_app_length, drop_ge by (rewrite length_app; simpl; lia). done.
Qed.

Lemma container_search_bounds (containerName : string) (cs : list Container.t) :
  let r := fold_left
             (fun '(index, idx) ctnair =>
                (if String.eqb (Container.Name ctnair) containerName then idx else index,
                 idx + 1))
             cs (0, 0) in
  snd r = len cs /\ 0 <= fst r /\ (fst r = 0 \/ fst r < len cs).
Proof.
  induction cs as [|c cs IH] using rev_ind; simpl.
  { split; [done|]. split; [done|]. by left. }
  rewrite fold_left_app. simpl in *.
  destruct (fold_left _ cs (0, 0)) as [index idx]. simpl in *.
  destruct IH as (-> & Hpos & Hlt). unfold len in *. rewrite length_app. simpl.
  split; [lia|]. destruct (String.eqb _ _); simpl; lia.
Qed.

(** X7: on a pod that has containers the index [getContainerIndex] returns
    is an index of the container list, so the accesses that follow it do not
    go out of range; on a pod without containers it returns 0. *)
Theorem getContainerIndex_in_range (containerName : string) (pod : Pod.t) :
  0 <= getContainerIndex containerName pod /\
  (Pod.Containers pod <> [] ->
   exists c, at_index (Pod.Containers pod) (getContainerIndex containerName pod) = Some c) /\
  (Pod.Containers pod = [] -> getContainerIndex containerName pod = 0).
Proof.
  pose proof (container_search_bounds containerName (Pod.Containers pod)) as Hbounds.
  unfold getContainerIndex. cbv zeta in Hbounds.
  destruct (fold_left _ (Pod.Containers pod) (0, 0)) as [index idx].
  cbn [fst snd] in *. destruct Hbounds as (_ & Hpos & Hlt).
  split; [done|]. split.
  - intros Hne. unfold at_index.
    assert (0 < len (Pod.Containers pod)) as Hlen
      by (unfold len; destruct (Pod.Containers pod); [done|simpl; lia]).
    destruct (Z.leb_spec 0 index) as [_|Hneg]; [|lia].
    apply lookup_lt_is_Some. unfold len in *. lia.
  - intros Hnil. rewrite Hnil in Hlt. unfold len in Hlt. simpl in Hlt. lia.
Qed.

(** ** Service identity *)

(** X8: the version [chooseServiceVersion] returns contains neither a colon
    nor a slash; for an image reference without a colon it is the whole
    reference, or empty when the reference contains a slash. *)
Theorem chooseServiceVersion_plain (pod : Pod.t) (index : Z) (c : Container.t) :
  at_index (Pod.Containers pod) index = Some c ->
  (exists v, chooseServiceVersion pod index = Some v /\
             ~ has_byte ":" v /\ ~ has_byte "/" v) /\
  (~ has_byte ":" (Container.Image c) ->
   chooseServiceVersion pod index =
   Some (if strings.Contains (Container.Image c) "/" then EmptyString
         else Container.Image c)).
Proof.
  intros Hc. unfold chooseServiceVersion. rewrite Hc. simpl. rewrite at_index_last.
  split.
  - destruct (last_segment_exists (Container.Image c)) as (pre & tag & -> & Htag & Hpre).
    rewrite Split_last_segment by done. simpl.
    destruct (strings.Contains tag "/") eqn:Hslash.
    + exists EmptyString. split; [done|]. split; by intros [].
    + exists tag. split; [done|]. split; [done|].
      intros Hin%Contains_byte. congruence.
  - intros Hnocolon. rewrite Split_no_sep by done. simpl. by case_match.
Qed.

(** ** Serialisation of the attribute map *)

Lemma string_compare_refl (s : string) : String.compare s s = Eq.
Proof.
  induction s as [|c s IH]; simpl; [done|].
  unfold Ascii.compare. by rewrite N.compare_refl.
Qed.

Lemma string_compare_trans_lt (s1 s2 s3 : string) :
  String.compare s1 s2 <> Gt -> String.compare s2 s3 <> Gt -> String.compare s1 s3 <> Gt.
Proof.
  revert s2 s3. induction s1 as [|c1 s1 IH]; intros [|c2 s2] [|c3 s3]; simpl; try done.
  unfold Ascii.compare.
  destruct (N.compare_spec (N_of_ascii c1) (N_of_ascii c2)) as [H12|H12|H12]; [| |done].
  - destruct (N.compare_spec (N_of_ascii c2) (N_of_ascii c3)) as [H23|H23|H23]; [| |done].
    + rewrite H12, H23, N.compare_refl. apply IH.
    + intros _ _. rewrite H12. by apply N.compare_lt_iff in H23 as ->.
  - destruct (N.compare_spec (N_of_ascii c2) (N_of_ascii c3)) as [H23|H23|H23]; [| |done].
    + intros _ _. rewrite <- H23. by apply N.compare_lt_iff in H12 as ->.
    + intros _ _. assert (N_of_ascii c1 < N_of_ascii c3)%N as Hlt by lia.
      by apply N.compare_lt_iff in Hlt as ->.
Qed.

Lemma string_le_alt a b : string_le a b <-> String.compare a b <> Gt.
Proof. unfold string_le, String.leb. by destruct (String.compare a b). Qed.

#[local] Instance string_le_refl : Reflexive string_le.
Proof. intros s. apply string_le_alt. by rewrite string_compare_refl. Qed.

#[local] Instance string_le_trans : Transitive string_le.
Proof.
  intros a b c Hab%string_le_alt Hbc%string_le_alt. apply string_le_alt.
  by eapply string_compare_trans_lt.
Qed.

#[local] Instance string_le_antisym : AntiSymm eq string_le.
Proof. intros a b. apply String.leb_antisym. Qed.

Lemma insert_sorted_perm k keys : insert_sorted k keys ≡ₚ k :: keys.
Proof.
  induction keys as [|k' keys IH]; simpl; [done|].
  destruct (String.leb k k'); [done|]. rewrite IH. apply Permutation_swap.
Qed.

Lemma insert_sorted_sorted k keys :
  StronglySorted string_le keys -> StronglySorted string_le (insert_sorted k keys).
Proof.
  induction 1 as [|k' keys Hsorted IH Hall]; simpl.
  - by repeat constructor.
  - destruct (String.leb k k') eqn:Hle.
    + constructor; [by constructor|]. constructor; [done|].
      eapply Forall_impl; [exact Hall|]. intros x Hx. by etrans.
    + constructor; [done|]. rewrite insert_sorted_perm. constructor; [|done].
      destruct (String.leb_total k k') as [?|?]; [congruence|done].
Qed.

Lemma sort_Strings_perm keys : sort_Strings keys ≡ₚ keys.
Proof.
  induction keys as [|k keys IH]; simpl; [done|].
  by rewrite insert_sorted_perm, IH.
Qed.

Lemma sort_Strings_sorted keys : StronglySorted string_le (sort_Strings keys).
Proof.
  induction keys as [|k keys IH]; simpl; [constructor|by apply insert_sorted_sorted].
Qed.

Lemma resourceMapToStr_loop (res : gmap string string) keys str :
  str <> EmptyString ->
  fold_left
    (fun str k =>
       let str := if negb (String.eqb str EmptyString) then str +:+ "," else str in
       str +:+ (k +:+ "=" +:+ map_index res k))
    keys str =
  match keys with
  | [] => str
  | _ => str +:+ "," +:+ strings.Join (attribute_items res keys) ","
  end.
Proof.
  revert str. induction keys as [|k keys IH]; intros str Hstr; [done|].
  cbn [fold_left]. cbv zeta. apply String.eqb_neq in Hstr as Hstr'. rewrite Hstr'.
  cbn [negb]. rewrite IH by (destruct str; [done|discriminate]).
  destruct keys as [|k' keys]; cbn [attribute_items fmap list_fmap strings.Join].
  - by rewrite string_app_assoc.
  - by rewrite !string_app_assoc.
Qed.

(** X9: the serialised map is the list of [key=value] items, joined by
    commas, for the keys of the map in ascending byte-wise order, each key
    once; it is the empty string for the empty map, and the order in which
    the keys of the map are enumerated before sorting has no influence. *)
Theorem resourceMapToStr_sorted_items (res : gmap string string) :
  let keys := sort_Strings (fst <$> map_to_list res) in
  resourceMapToStr res = strings.Join (attribute_items res keys) "," /\
  StronglySorted string_le keys /\
  NoDup keys /\
  (forall k, k ∈ keys <-> is_Some (res !! k)) /\
  (forall enumeration, enumeration ≡ₚ fst <$> map_to_list res ->
                       sort_Strings enumeration = keys) /\
  resourceMapToStr ∅ = EmptyString.
Proof.
  intros keys. split; [|split; [|split; [|split; [|split]]]].
  - unfold resourceMapToStr. cbv zeta. fold keys.
    destruct keys as [|k keys']; [done|]. cbn [fold_left String.eqb negb].
    rewrite resourceMapToStr_loop by (destruct k; discriminate).
    by destruct keys'.
  - apply sort_Strings_sorted.
  - subst keys. rewrite sort_Strings_perm. apply NoDup_fst_map_to_list.
  - intros k. subst keys. rewrite sort_Strings_perm, list_elem_of_fmap. split.
    + intros ([k' v] & -> & Hin%elem_of_map_to_list). by exists v.
    + intros [v Hv]. exists (k, v). split; [done|]. by apply elem_of_map_to_list.
  - intros enumeration Hperm. apply (StronglySorted_unique string_le).
    + apply sort_Strings_sorted.
    + apply sort_Strings_sorted.
    + subst keys. by rewrite !sort_Strings_perm.
  - reflexivity.
Qed.

(** ** Reading the serialised map back *)

Lemma has_byteb_spec c s : has_byteb c s = true <-> has_byte c s.
Proof.
  unfold has_byte. induction s as [|x s IH]; simpl; [split; [done|tauto]|].
  rewrite orb_true_iff, IH. destruct (Ascii.eqb_spec x c); intuition congruence.
Qed.

Lemma has_byteb_false c s : has_byteb c s = false -> ~ has_byte c s.
Proof. intros Hb Hin%has_byteb_spec. congruence. Qed.

Lemma has_byte_app c a b : has_byte c (a +:+ b) <-> has_byte c a \/ has_byte c b.
Proof.
  unfold has_byte. induction a as [|x a IH]; simpl; [tauto|].
  change (list_ascii_of_string (String x a +:+ b))
    with (x :: list_ascii_of_string (a +:+ b)).
  simpl. rewrite IH. tauto.
Qed.

Lemma rev_onto_acc s acc : strings.rev_onto s acc = strings.rev s +:+ acc.
Proof.
  unfold strings.rev. revert acc. induction s as [|c s IH]; intros acc; simpl; [done|].
  rewrite (IH (String c acc)), (IH (String c EmptyString)).
  by rewrite string_app_assoc.
Qed.

Lemma rev_cons c s : strings.rev (String c s) = strings.rev s +:+ String c EmptyString.
Proof. unfold strings.rev at 1. simpl. apply rev_onto_acc. Qed.

Lemma string_app_empty_r (a : string) : a +:+ EmptyString = a.
Proof.
  induction a as [|x a IH]; [done|].
  change (String x (a +:+ EmptyString) = String x a). by rewrite IH.
Qed.

Lemma rev_app a b : strings.rev (a +:+ b) = strings.rev b +:+ strings.rev a.
Proof.
  induction a as [|x a IH].
  - change (strings.rev EmptyString) with EmptyString. by rewrite string_app_empty_r.
  - change (String x a +:+ b) with (String x (a +:+ b)).
    by rewrite !rev_cons, IH, string_app_assoc.
Qed.

Lemma rev_involutive s : strings.rev (strings.rev s) = s.
Proof.
  induction s as [|c s IH]; [done|]. rewrite rev_cons, rev_app, IH. done.
Qed.

Lemma plain_byte_low c m :
  plain_byte c = true -> (128 <= m)%N -> (N_of_ascii c =? m)%N = false.
Proof.
  unfold plain_byte. intros [_ Hlow%N.ltb_lt]%andb_true_iff Hm. apply N.eqb_neq. lia.
Qed.

Lemma trimLeft_plain c s :
  plain_byte c = true -> strings.trimLeft (String c s) = String c s.
Proof.
  intros Hplain. pose proof (fun m => plain_byte_low c m Hplain) as Hlow.
  apply andb_true_iff in Hplain as [Hspace%negb_true_iff _].
  simpl. rewrite Hspace. destruct s as [|c2 s2]; [done|].
  unfold strings.space2. rewrite Hlow by lia. cbn [andb].
  destruct s2 as [|c3 s3]; [done|].
  unfold strings.space3. cbv zeta. rewrite !Hlow by lia. done.
Qed.

Lemma trimLeftRev_plain c r :
  plain_byte c = true -> strings.trimLeftRev (String c r) = String c r.
Proof.
  intros Hplain. pose proof (fun m => plain_byte_low c m Hplain) as Hlow.
  apply andb_true_iff in Hplain as [Hspace%negb_true_iff Hlt%N.ltb_lt].
  simpl. rewrite Hspace. destruct r as [|c2 r2]; [done|].
  unfold strings.space2. rewrite !Hlow by lia. rewrite andb_false_r.
  destruct r2 as [|c3 r3]; [done|].
  unfold strings.space3. cbv zeta. rewrite !Hlow by lia.
  assert ((128 <=? N_of_ascii c)%N = false) as -> by (apply N.leb_gt; lia).
  rewrite !andb_false_r. done.
Qed.

Lemma TrimSpace_plain s :
  s <> EmptyString -> plain_start s = true -> plain_end s = true ->
  strings.TrimSpace s = s.
Proof.
  intros Hne Hstart Hend. unfold strings.TrimSpace, strings.trimRight.
  destruct s as [|c s]; [done|]. rewrite trimLeft_plain by done.
  unfold plain_end in Hend. destruct (strings.rev (String c s)) as [|c' r] eqn:Hrev.
  - apply (f_equal strings.rev) in Hrev. by rewrite rev_involutive in Hrev.
  - rewrite trimLeftRev_plain by done. by rewrite <- Hrev, rev_involutive.
Qed.

Lemma Split_Join_items items :
  items <> [] -> Forall (fun item => ~ has_byte "," item) items ->
  strings.Split (strings.Join items ",") "," = items.
Proof.
  induction items as [|item items IH]; [done|]. intros _ Hall.
  apply Forall_cons in Hall as [Hitem Hall]. destruct items as [|item' items].
  - simpl. by apply Split_no_sep.
  - change (strings.Join (item :: item' :: items) ",")
      with (item +:+ String "," (strings.Join (item' :: items) ",")).
    rewrite Split_app_sep, IH, Split_no_sep by done. done.
Qed.

Lemma clean_attribute_item k v :
  clean_attribute k v = true ->
  ~ has_byte "," (k +:+ "=" +:+ v) /\
  strings.Split (strings.TrimSpace (k +:+ "=" +:+ v)) "=" = [k; v].
Proof.
  unfold clean_attribute. rewrite !andb_true_iff, !negb_true_iff.
  intros (((((Hk1 & Hk2) & Hv1) & Hv2) & Hstart) & Hend).
  apply has_byteb_false in Hk1, Hk2, Hv1, Hv2. split.
  - rewrite !has_byte_app. intros [?|[Heq|?]]; [done| |done].
    unfold has_byte in Heq. simpl in Heq. by destruct Heq.
  - rewrite TrimSpace_plain.
    + change (k +:+ "=" +:+ v) with (k +:+ String "=" v).
      by rewrite Split_app_sep, !Split_no_sep.
    + by destruct k.
    + by destruct k.
    + unfold plain_end in *. change (k +:+ "=" +:+ v) with (k +:+ String "=" v).
      rewrite rev_app, rev_cons, string_app_assoc.
      destruct (strings.rev v); [done|exact Hend].
Qed.

Lemma HasSuffix_comma s :
  strings.HasSuffix s "," = true -> exists p, s = p +:+ ",".
Proof.
  unfold strings.HasSuffix. change (strings.rev ",") with ","%string.
  destruct (strings.rev s) as [|x r] eqn:Hrev; cbn [String.prefix]; [done|].
  destruct (ascii_dec "," x) as [<-|]; [|done]. intros _.
  exists (strings.rev r). apply (f_equal strings.rev) in Hrev.
  by rewrite rev_involutive, rev_cons in Hrev.
Qed.

Lemma read_items (res : gmap string string) keys acc :
  Forall (fun k => clean_attribute k (map_index res k) = true) keys ->
  fold_left read_part (attribute_items res keys) acc =
  fold_left (fun acc k => <[k := true]> acc) keys acc.
Proof.
  intros Hall. revert acc. induction Hall as [|k keys Hk Hall IH]; intros acc; [done|].
  cbn [attribute_items fmap list_fmap fold_left]. rewrite <- IH. f_equal.
  unfold read_part. by destruct (clean_attribute_item _ _ Hk) as [_ ->].
Qed.

Lemma insert_keys_lookup keys (acc : gmap string bool) k :
  fold_left (fun acc k => <[k := true]> acc) keys acc !! k =
  if decide (k ∈ keys) then Some true else acc !! k.
Proof.
  revert acc. induction keys as [|k' keys IH]; intros acc; [done|].
  cbn [fold_left]. rewrite IH. destruct (decide (k ∈ keys)) as [Hin|Hout].
  - rewrite decide_True; [done|by right].
  - destruct (decide (k = k')) as [->|Hne].
    + rewrite lookup_insert_eq, decide_True; [done|by left].
    + rewrite lookup_insert_ne by done. rewrite decide_False; [done|].
      by intros [?|?]%elem_of_cons.
Qed.

Lemma sorted_keys_elem (res : gmap string string) k :
  k ∈ sort_Strings (fst <$> map_to_list res) <-> is_Some (res !! k).
Proof.
  rewrite sort_Strings_perm, list_elem_of_fmap. split.
  - intros ([k' v] & -> & Hin%elem_of_map_to_list). by exists v.
  - intros [v Hv]. exists (k, v). split; [done|]. by apply elem_of_map_to_list.
Qed.

Lemma resourceMapToStr_items (res : gmap string string) :
  resourceMapToStr res =
  strings.Join (attribute_items res (sort_Strings (fst <$> map_to_list res))) ",".
Proof.
  unfold resourceMapToStr. cbv zeta.
  destruct (sort_Strings (fst <$> map_to_list res)) as [|k keys']; [done|].
  cbn [fold_left String.eqb negb].
  rewrite resourceMapToStr_loop by (destruct k; discriminate).
  by destruct keys'.
Qed.

(** The parts of a serialised map whose entries are clean. *)
Lemma Split_resourceMapToStr (res : gmap string string) :
  map_Forall (fun k v => clean_attribute k v = true) res ->
  let keys := sort_Strings (fst <$> map_to_list res) in
  Forall (fun k => clean_attribute k (map_index res k) = true) keys /\
  (keys <> [] ->
   strings.Split (resourceMapToStr res) "," = attribute_items res keys).
Proof.
  intros Hclean keys.
  assert (Forall (fun k => clean_attribute k (map_index res k) = true) keys) as Hall.
  { apply Forall_forall. intros k [v Hv]%sorted_keys_elem.
    unfold map_index. rewrite Hv. by apply (Hclean k v). }
  split; [done|]. intros Hne. rewrite resourceMapToStr_items. fold keys.
  apply Split_Join_items.
  - unfold attribute_items. by destruct keys.
  - unfold attribute_items. apply Forall_fmap. eapply Forall_impl; [exact Hall|].
    intros k Hk. by destruct (clean_attribute_item _ _ Hk) as [? _].
Qed.

Lemma existing_keys_first consts c i e :
  first_named (constants.EnvOTELResourceAttrs consts) (Container.Env c) i e ->
  existing_keys consts c = fold_left read_part (strings.Split (EnvVar.Value e) ",") ∅.
Proof.
  intros Hfirst. unfold existing_keys.
  by rewrite (getIndexOfEnv_first _ _ _ _ Hfirst), (first_named_at_index _ _ _ _ Hfirst).
Qed.

Section attribute_round_trip.

Context (World error : Type).
Context (client_Get : types.NamespacedName.t -> World -> (error + appsv1.ReplicaSet.t) * World).
Context (apierrors_IsNotFound : error -> bool).
Context (strings_ToLower : string -> string).
Context (consts : constants.t).

(** X10: what [injectCommonSDKConfig] writes, [createResourceMap] reads
    back.  When the first resource-attributes variable of a container holds
    the serialisation of a map of clean entries, alone or appended to an
    older value the way [injectCommonSDKConfig] appends it, the parser of
    [createResourceMap] marks every key of the map as declared; alone, it
    marks nothing else; and [createResourceMap] on that container returns
    no key of the map. *)
Theorem written_attributes_read_back (res : gmap string string) (c : Container.t)
    (i : nat) (e old : EnvVar.t) :
  map_Forall (fun k v => clean_attribute k v = true) res ->
  first_named (constants.EnvOTELResourceAttrs consts) (Container.Env c) i e ->
  (EnvVar.Value e = resourceMapToStr res \/
   EnvVar.Value e = EnvVar.Value old +:+ attributes_suffix old res) ->
  (forall k, is_Some (res !! k) -> set_index (existing_keys consts c) k = true) /\
  (EnvVar.Value e = resourceMapToStr res ->
   forall k, set_index (existing_keys consts c) k = true -> is_Some (res !! k)) /\
  (forall fuel newrelic ns pod index w res' w',
     at_index (Pod.Containers pod) index = Some c ->
     instrumentation.createResourceMap World error client_Get apierrors_IsNotFound
       strings_ToLower consts fuel newrelic ns pod index w = Done (res', w') ->
     forall k, is_Some (res !! k) -> res' !! k = None).
Proof.
  intros Hclean Hfirst Hvalue.
  destruct (Split_resourceMapToStr res Hclean) as [Hall Hsplit].
  set (keys := sort_Strings (fst <$> map_to_list res)) in *.
  assert (forall k, is_Some (res !! k) -> set_index (existing_keys consts c) k = true)
    as Hmarked.
  { intros k Hk. apply sorted_keys_elem in Hk as Hin. fold keys in Hin.
    assert (keys <> []) as Hne by (intros Heq; rewrite Heq in Hin; by apply elem_of_nil in Hin).
    specialize (Hsplit Hne).
    assert (exists parts, strings.Split (EnvVar.Value e) "," = parts ++ attribute_items res keys)
      as [parts Hparts].
    { destruct Hvalue as [->| ->].
      - by exists [].
      - unfold attributes_suffix.
        destruct (strings.HasSuffix (EnvVar.Value old) ",") eqn:Hsuffix; cbn [negb].
        + apply HasSuffix_comma in Hsuffix as [p ->].
          rewrite string_app_assoc.
          change ("," +:+ resourceMapToStr res) with (String "," (resourceMapToStr res)).
          rewrite Split_app_sep, Hsplit. by eexists.
        + change ("," +:+ resourceMapToStr res) with (String "," (resourceMapToStr res)).
          rewrite Split_app_sep, Hsplit. by eexists. }
    rewrite (existing_keys_first _ _ _ _ Hfirst), Hparts, fold_left_app, read_items by done.
    unfold set_index. rewrite insert_keys_lookup. by rewrite decide_True. }
  split; [exact Hmarked|]. split.
  - intros Halone k. rewrite (existing_keys_first _ _ _ _ Hfirst), Halone.
    destruct (decide (keys = [])) as [Hnil|Hne].
    + rewrite resourceMapToStr_items. fold keys. rewrite Hnil. done.
    + rewrite (Hsplit Hne), read_items by done. unfold set_index.
      rewrite insert_keys_lookup. destruct (decide (k ∈ keys)) as [Hin|]; [|done].
      intros _. by apply sorted_keys_elem.
  - intros fuel newrelic ns pod index w res' w' Hc Hrun k Hk.
    rewrite (createResourceMap_unfold _ _ _ _ _ _ _ _ _ _ _ _ _ Hc) in Hrun. cbv zeta in Hrun.
    destruct (instrumentation.addParentResourceLabels _ _ _ _ _ _ _ _ _ _ _)
      as [[k8sResources w1]| |]; [|done|done].
    injection Hrun as <- _. rewrite !map_fold_copy_lookup, (Hmarked k Hk). cbn [negb andb].
    rewrite lookup_empty. by repeat case_match.
Qed.

End attribute_round_trip.

(** ** The ownership walk *)

Lemma owner_extension_refl uid resources : owner_extension uid resources resources.
Proof. by split. Qed.

Lemma owner_extension_trans uid r1 r2 r3 :
  owner_extension uid r1 r2 -> owner_extension uid r2 r3 -> owner_extension uid r1 r3.
Proof.
  intros [Hframe1 Hdom1] [Hframe2 Hdom2]. split.
  - intros k Hname Huid. by rewrite Hframe2, Hframe1.
  - intros k Hk. by apply Hdom2, Hdom1.
Qed.

Lemma owner_extension_set uid kN kU n u resources :
  kN ∈ owner_name_keys -> kU ∈ owner_uid_keys ->
  owner_extension uid resources (set_uid uid kU u (<[kN := n]> resources)).
Proof.
  intros HkN HkU. split.
  - intros k Hname Huid. assert (kN <> k) by (by intros ->).
    unfold set_uid. destruct uid.
    + destruct Huid as [?|Huid]; [done|]. assert (kU <> k) by (by intros ->).
      by rewrite !lookup_insert_ne.
    + by rewrite lookup_insert_ne.
  - intros k Hk. unfold set_uid.
    destruct uid; rewrite ?lookup_insert_is_Some; destruct (decide (kN = k)),
      (decide (kU = k)); naive_solver.
Qed.

Section walk_properties.

Context (World error : Type).
Context (client_Get : types.NamespacedName.t -> World -> (error + appsv1.ReplicaSet.t) * World).
Context (apierrors_IsNotFound : error -> bool).
Context (strings_ToLower : string -> string).
Context (consts : constants.t).

Local Abbreviation addParentResourceLabels :=
  (instrumentation.addParentResourceLabels World error client_Get apierrors_IsNotFound
     strings_ToLower).
Local Abbreviation createResourceMap :=
  (instrumentation.createResourceMap World error client_Get apierrors_IsNotFound
     strings_ToLower consts).
Local Abbreviation foldM := (instrumentation.foldM World).

Lemma foldM_invariant {A B : Type} (P : A -> A -> Prop)
    (f : A -> B -> instrumentation.M World A) l :
  (forall a, P a a) -> (forall a1 a2 a3, P a1 a2 -> P a2 a3 -> P a1 a3) ->
  (forall a b w a' w', b ∈ l -> f a b w = Done (a', w') -> P a a') ->
  forall a w a' w', foldM f a l w = Done (a', w') -> P a a'.
Proof.
  intros Hrefl Htrans. induction l as [|b l IH]; intros Hstep a w a' w'; simpl.
  - unfold instrumentation.ret. by intros [= <- _].
  - unfold instrumentation.bind. destruct (f a b w) as [[a1 w1]| |] eqn:Hf; [|done|done].
    intros Hrest. apply (Htrans _ a1).
    + eapply Hstep; [by left|exact Hf].
    + eapply IH; [|exact Hrest]. intros ? ? ? ? ? ?. apply Hstep. by right.
Qed.

Lemma walk_extends fuel uid ns objectMeta resources w res' w' :
  addParentResourceLabels fuel uid ns objectMeta resources w = Done (res', w') ->
  owner_extension uid resources res'.
Proof.
  revert objectMeta resources w res' w'.
  induction fuel as [|fuel IH]; intros objectMeta resources w res' w'; [done|].
  cbn [instrumentation.addParentResourceLabels].
  apply (foldM_invariant (owner_extension uid));
    [apply owner_extension_refl|apply owner_extension_trans|].
  intros a owner w0 a' w0' _. cbv zeta.
  destruct (String.eqb (strings_ToLower (OwnerReference.Kind owner)) "replicaset").
  { destruct (instrumentation.retry_OnError _ _ _ _ _ _ _ _) as [[err rs] w1].
    intros Hrec%IH. eapply owner_extension_trans; [|exact Hrec].
    apply owner_extension_set; set_solver. }
  unfold instrumentation.ret.
  repeat case_match; intros [= <- _];
    [apply owner_extension_set; set_solver..|apply owner_extension_refl].
Qed.

Lemma walk_without_lookup uid ns objectMeta resources fuel w :
  Forall (fun owner => strings_ToLower (OwnerReference.Kind owner) <> "replicaset"%string)
         (ObjectMeta.OwnerReferences objectMeta) ->
  addParentResourceLabels (S fuel) uid ns objectMeta resources w =
  Done (fold_left (owner_attributes strings_ToLower uid) (ObjectMeta.OwnerReferences objectMeta)
          resources, w).
Proof.
  intros Hkinds. cbn [instrumentation.addParentResourceLabels].
  revert resources. induction Hkinds as [|owner owners Hkind _ IH]; intros resources; [done|].
  apply String.eqb_neq in Hkind.
  cbn [instrumentation.foldM fold_left]. unfold instrumentation.bind at 1. cbv zeta.
  rewrite Hkind. unfold owner_attributes at 2. cbv zeta.
  repeat match goal with
         | |- context [if String.eqb ?k ?s then _ else _] => destruct (String.eqb k s)
         end; unfold instrumentation.ret at 1; apply IH.
Qed.

(** X11: the ownership walk writes owner attributes only.  When it returns,
    every key that is not an owner name (nor, with UID attributes, an owner
    UID) has the value it had, and no key is lost.  When no owner is a
    ReplicaSet the walk returns on one level of recursion and the cluster
    is not consulted: the owners are folded in order, a later owner of a
    kind overwriting an earlier one. *)
Theorem addParentResourceLabels_owner_keys_only fuel uid ns objectMeta resources :
  (forall w res' w',
     addParentResourceLabels fuel uid ns objectMeta resources w = Done (res', w') ->
     owner_extension uid resources res') /\
  (Forall (fun owner => strings_ToLower (OwnerReference.Kind owner) <> "replicaset"%string)
          (ObjectMeta.OwnerReferences objectMeta) ->
   forall fuel' w,
     addParentResourceLabels (S fuel') uid ns objectMeta resources w =
     Done (fold_left (owner_attributes strings_ToLower uid)
             (ObjectMeta.OwnerReferences objectMeta) resources, w)).
Proof.
  split.
  - intros w res' w'. apply walk_extends.
  - intros Hkinds fuel' w. by apply walk_without_lookup.
Qed.

Lemma createResourceMap_lookup fuel newrelic ns pod index c w :
  at_index (Pod.Containers pod) index = Some c ->
  let resource := v1alpha1.InstrumentationSpec.Resource (v1alpha1.Instrumentation.Spec newrelic) in
  let walk :=
    addParentResourceLabels fuel (v1alpha1.Resource.AddK8sUIDAttributes resource) ns
      (Pod.ObjectMeta pod) (direct_topology ns pod c) w in
  (forall k8sResources w',
     walk = Done (k8sResources, w') ->
     exists rm,
       createResourceMap fuel newrelic ns pod index w = Done (rm, w') /\
       forall k, rm !! k =
                 attribute_choice (set_index (existing_keys consts c) k) (k8sResources !! k)
                   (v1alpha1.Resource.Attributes resource !! k)) /\
  (forall rm w',
     createResourceMap fuel newrelic ns pod index w = Done (rm, w') ->
     exists k8sResources, walk = Done (k8sResources, w')).
Proof.
  intros Hc resource walk.
  rewrite (createResourceMap_unfold _ _ _ _ _ _ _ _ _ _ _ _ _ Hc). cbv zeta.
  fold resource. fold walk. split.
  - intros k8sResources w' ->. eexists. split; [reflexivity|]. intros k.
    rewrite !map_fold_copy_lookup, lookup_empty. unfold attribute_choice.
    destruct (set_index (existing_keys consts c) k), (k8sResources !! k) as [v|],
      (v1alpha1.Resource.Attributes resource !! k); cbn [negb andb];
      try destruct (String.eqb v EmptyString); reflexivity.
  - intros rm w'. destruct walk as [[k8sResources w1]| |]; [|done|done].
    intros [= _ <-]. by eexists.
Qed.


Lemma lookup_set_uid_ne uid kU u (m : gmap string string) k :
  kU <> k -> set_uid uid kU u m !! k = m !! k.
Proof. intros Hne. unfold set_uid. destruct uid; [by rewrite lookup_insert_ne|done]. Qed.

Lemma walk_replicaset_found fuel uid ns objectMeta owner resources w rs w1 :
  ObjectMeta.OwnerReferences objectMeta = [owner] ->
  strings_ToLower (OwnerReference.Kind owner) = "replicaset"%string ->
  client_Get (types.NamespacedName.mk (Namespace.Name ns) (OwnerReference.Name owner)) w
    = (inr rs, w1) ->
  addParentResourceLabels (S fuel) uid ns objectMeta resources w =
  addParentResourceLabels fuel uid ns (appsv1.ReplicaSet.ObjectMeta rs)
    (set_uid uid semconv.K8SReplicaSetUIDKey (OwnerReference.UID owner)
       (<[semconv.K8SReplicaSetNameKey := OwnerReference.Name owner]> resources)) w1.
Proof.
  intros Howner Hkind Hget. cbn [instrumentation.addParentResourceLabels].
  rewrite Howner. cbn [instrumentation.foldM]. unfold instrumentation.bind at 1. cbv zeta.
  rewrite Hkind. cbn [String.eqb Ascii.eqb Bool.eqb].
  unfold instrumentation.backOff_Steps. cbn [instrumentation.retry_OnError].
  unfold instrumentation.getReplicaSet at 1. rewrite Hget.
  by destruct (addParentResourceLabels fuel _ _ _ _ _) as [[? ?]| |].
Qed.

(** X13: a pod of a Deployment is named after the Deployment.  When the
    only owner of the pod is a ReplicaSet that the client finds at the
    first attempt and whose only owner is a Deployment, the walk returns
    on two levels of recursion with the names (and, when asked for, the
    UIDs) of both; when moreover the name of the Deployment is not empty
    and the container does not declare [k8s.deployment.name],
    [createResourceMap] returns that name under the key and
    [chooseServiceName] chooses it. *)
Theorem deployment_names_the_service fuel newrelic ns pod index c w owner rs w1 deployment :
  at_index (Pod.Containers pod) index = Some c ->
  ObjectMeta.OwnerReferences (Pod.ObjectMeta pod) = [owner] ->
  strings_ToLower (OwnerReference.Kind owner) = "replicaset"%string ->
  client_Get (types.NamespacedName.mk (Namespace.Name ns) (OwnerReference.Name owner)) w
    = (inr rs, w1) ->
  ObjectMeta.OwnerReferences (appsv1.ReplicaSet.ObjectMeta rs) = [deployment] ->
  strings_ToLower (OwnerReference.Kind deployment) = "deployment"%string ->
  let uid :=
    v1alpha1.Resource.AddK8sUIDAttributes
      (v1alpha1.InstrumentationSpec.Resource (v1alpha1.Instrumentation.Spec newrelic)) in
  (forall resources,
     addParentResourceLabels (S (S fuel)) uid ns (Pod.ObjectMeta pod) resources w =
     Done (set_uid uid semconv.K8SDeploymentUIDKey (OwnerReference.UID deployment)
             (<[semconv.K8SDeploymentNameKey := OwnerReference.Name deployment]>
                (set_uid uid semconv.K8SReplicaSetUIDKey (OwnerReference.UID owner)
                   (<[semconv.K8SReplicaSetNameKey := OwnerReference.Name owner]> resources))),
           w1)) /\
  (OwnerReference.Name deployment <> EmptyString ->
   set_index (existing_keys consts c) semconv.K8SDeploymentNameKey = false ->
   exists rm,
     createResourceMap (S (S fuel)) newrelic ns pod index w = Done (rm, w1) /\
     rm !! semconv.K8SDeploymentNameKey = Some (OwnerReference.Name deployment) /\
     chooseServiceName pod rm index = Some (OwnerReference.Name deployment)).
Proof.
  intros Hc Howner Hkind Hget Hrs Hdeployment uid.
  assert (forall resources,
     addParentResourceLabels (S (S fuel)) uid ns (Pod.ObjectMeta pod) resources w =
     Done (set_uid uid semconv.K8SDeploymentUIDKey (OwnerReference.UID deployment)
             (<[semconv.K8SDeploymentNameKey := OwnerReference.Name deployment]>
                (set_uid uid semconv.K8SReplicaSetUIDKey (OwnerReference.UID owner)
                   (<[semconv.K8SReplicaSetNameKey := OwnerReference.Name owner]> resources))),
           w1)) as Hwalk.
  { intros resources.
    rewrite (walk_replicaset_found _ _ _ _ _ _ _ _ _ Howner Hkind Hget).
    rewrite walk_without_lookup
      by (rewrite Hrs; constructor; [by rewrite Hdeployment|constructor]).
    rewrite Hrs. cbn [fold_left]. unfold owner_attributes. cbv zeta.
    rewrite Hdeployment. reflexivity. }
  split; [exact Hwalk|]. intros Hname Hundeclared.
  destruct (createResourceMap_lookup (S (S fuel)) newrelic ns pod index c w Hc)
    as [Hdone _].
  destruct (Hdone _ _ (Hwalk _)) as (rm & Hrun & Hlookup). exists rm.
  assert (rm !! semconv.K8SDeploymentNameKey = Some (OwnerReference.Name deployment)) as Hrm.
  { rewrite Hlookup, Hundeclared, lookup_set_uid_ne, lookup_insert_eq by done.
    unfold attribute_choice. by apply String.eqb_neq in Hname as ->. }
  split; [done|]. split; [done|].
  unfold chooseServiceName. cbv zeta.
  assert (map_index rm semconv.K8SDeploymentNameKey = OwnerReference.Name deployment) as ->
    by (unfold map_index; by rewrite Hrm).
  by apply String.eqb_neq in Hname as ->.
Qed.

(** X19: the service instance id needs all of its parts.  For a container
    that does not declare [service.instance.id] and a spec without that
    attribute, the map of [createResourceMap] holds the key exactly when
    the names of the namespace, the pod and the container are all
    non-empty, and the value is then the three names joined by dots. *)
Theorem service_instance_id_needs_all_parts fuel newrelic ns pod index c w rm w' :
  at_index (Pod.Containers pod) index = Some c ->
  createResourceMap fuel newrelic ns pod index w = Done (rm, w') ->
  set_index (existing_keys consts c) semconv.ServiceInstanceIDKey = false ->
  v1alpha1.Resource.Attributes
    (v1alpha1.InstrumentationSpec.Resource (v1alpha1.Instrumentation.Spec newrelic))
    !! semconv.ServiceInstanceIDKey = None ->
  let namespaceName := Namespace.Name ns in
  let podName := ObjectMeta.Name (Pod.ObjectMeta pod) in
  let containerName := Container.Name c in
  (namespaceName <> EmptyString -> podName <> EmptyString -> containerName <> EmptyString ->
   rm !! semconv.ServiceInstanceIDKey =
   Some (namespaceName +:+ "." +:+ podName +:+ "." +:+ containerName)) /\
  (namespaceName = EmptyString \/ podName = EmptyString \/ containerName = EmptyString ->
   rm !! semconv.ServiceInstanceIDKey = None).
Proof.
  intros Hc Hrun Hundeclared Hspec namespaceName podName containerName.
  destruct (createResourceMap_lookup fuel newrelic ns pod index c w Hc) as [Hdone Hback].
  destruct (Hback _ _ Hrun) as [k8sResources Hwalk].
  destruct (Hdone _ _ Hwalk) as (rm0 & Hrun0 & Hlookup).
  rewrite Hrun in Hrun0. injection Hrun0 as <-.
  apply walk_extends in Hwalk as [Hframe _].
  rewrite Hlookup, Hundeclared, Hspec, Hframe;
    [|intros Hin|right; intros Hin];
    try (repeat (apply elem_of_cons in Hin as [Hin|Hin]; [discriminate|]);
         by apply elem_of_nil in Hin).
  unfold direct_topology. rewrite lookup_insert_eq.
  unfold createServiceInstanceId, attribute_choice.
  fold namespaceName podName containerName. split.
  - intros Hns Hpod Hcontainer.
    apply String.eqb_neq in Hns as Hns', Hpod as Hpod', Hcontainer as Hcontainer'.
    rewrite Hns', Hpod', Hcontainer'. cbn [negb andb strings.Join].
    by destruct namespaceName.
  - intros [->| [->| ->]]; cbn [String.eqb negb andb]; rewrite ?andb_false_r; done.
Qed.

End walk_properties.

(** ** Insert-if-absent: the common environment *)

Lemma injectCommonEnvVar_loop (declared envs : list EnvVar.t) :
  exists A,
    fold_left
      (fun envs env =>
         if getIndexOfEnv envs (EnvVar.Name env) =? -1 then envs ++ [env] else envs)
      declared envs = envs ++ A /\
    A `sublist_of` declared /\
    (forall d, d ∈ declared -> ~ unnamed (EnvVar.Name d) (envs ++ A)) /\
    (forall a, a ∈ A -> unnamed (EnvVar.Name a) envs) /\
    NoDup (EnvVar.Name <$> A) /\
    (forall (i : nat) d,
       declared !! i = Some d -> unnamed (EnvVar.Name d) envs ->
       (forall (j : nat) d', (j < i)%nat -> declared !! j = Some d' ->
                             EnvVar.Name d' <> EnvVar.Name d) ->
       d ∈ A).
Proof.
  revert envs. induction declared as [|d declared IH]; intros envs.
  - exists []. rewrite app_nil_r. repeat split; try done.
    + intros d Hin. by apply elem_of_nil in Hin.
    + intros a Hin. by apply elem_of_nil in Hin.
    + constructor.
  - cbn [fold_left]. destruct (getIndexOfEnv envs (EnvVar.Name d) =? -1) eqn:Hidx.
    + apply getIndexOfEnv_absent_iff in Hidx.
      destruct (IH (envs ++ [d])) as (A & Hloop & Hsub & Hpresent & Hmissing & Hdup & Hfirst).
      exists (d :: A). rewrite Hloop, <- app_assoc. split; [done|].
      split; [by apply sublist_skip|]. split; [|split; [|split]].
      * intros d' [->|Hin]%elem_of_cons.
        -- rewrite cons_middle, app_assoc. by apply present_app_l, present_snoc.
        -- rewrite cons_middle, app_assoc. by apply Hpresent.
      * intros a [->|Hin]%elem_of_cons; [done|].
        by destruct (proj1 (unnamed_app _ _ _) (Hmissing a Hin)).
      * cbn [fmap list_fmap]. constructor; [|done].
        intros (a & Hname & Hin)%list_elem_of_fmap.
        destruct (proj1 (unnamed_app _ _ _) (Hmissing a Hin)) as [_ Hd].
        unfold unnamed in Hd. apply Forall_cons in Hd as [Hd _]. congruence.
      * intros [|i] d' Hd' Hun Hbefore.
        -- injection Hd' as <-. by left.
        -- right. apply (Hfirst i d' Hd').
           ++ apply unnamed_app. split; [done|]. constructor; [|constructor].
              apply (Hbefore 0%nat d); [lia|done].
           ++ intros j d'' Hj Hd''. apply (Hbefore (S j) d''); [lia|done].
    + apply present_of_test in Hidx.
      destruct (IH envs) as (A & Hloop & Hsub & Hpresent & Hmissing & Hdup & Hfirst).
      exists A. split; [done|]. split; [by apply sublist_cons|].
      split; [|split; [done|split; [done|]]].
      * intros d' [->|Hin]%elem_of_cons; [by apply present_app_l|by apply Hpresent].
      * intros [|i] d' Hd' Hun Hbefore.
        -- injection Hd' as <-. done.
        -- apply (Hfirst i d' Hd' Hun).
           intros j d'' Hj Hd''. apply (Hbefore (S j) d''); [lia|done].
Qed.

(** X14: [injectCommonEnvVar] adds what is missing and nothing else.  It
    fails exactly when the container does not exist; otherwise the
    environment of the container is followed by a sub-list [A] of the
    variables the spec declares, in the order of the spec: after the run
    every declared name is present, a variable is added only when the
    container had none of its name, no name is added twice, and of several
    declared variables of one name the first is the one added.  Nothing
    else of the pod changes. *)
Theorem injectCommonEnvVar_adds_missing (newrelic : v1alpha1.Instrumentation.t) (pod : Pod.t)
    (index : Z) :
  let declared := v1alpha1.InstrumentationSpec.Env (v1alpha1.Instrumentation.Spec newrelic) in
  (injectCommonEnvVar newrelic pod index = None <->
   at_index (Pod.Containers pod) index = None) /\
  (forall c,
     at_index (Pod.Containers pod) index = Some c ->
     exists A,
       injectCommonEnvVar newrelic pod index =
       Some (set_container pod index (Container.with_Env c (Container.Env c ++ A))) /\
       A `sublist_of` declared /\
       (forall d, d ∈ declared -> ~ unnamed (EnvVar.Name d) (Container.Env c ++ A)) /\
       (forall a, a ∈ A -> unnamed (EnvVar.Name a) (Container.Env c)) /\
       NoDup (EnvVar.Name <$> A) /\
       (forall (i : nat) d,
          declared !! i = Some d -> unnamed (EnvVar.Name d) (Container.Env c) ->
          (forall (j : nat) d', (j < i)%nat -> declared !! j = Some d' ->
                                EnvVar.Name d' <> EnvVar.Name d) ->
          d ∈ A)).
Proof.
  intros declared. unfold injectCommonEnvVar. split.
  - destruct (at_index (Pod.Containers pod) index); by split.
  - intros c ->. cbn [mbind option_bind]. cbv zeta.
    destruct (injectCommonEnvVar_loop declared (Container.Env c)) as (A & Hloop & Hrest).
    exists A. fold declared. by rewrite Hloop.
Qed.

(** ** What the injection leaves alone *)

Lemma first_named_head name envs e :
  (exists i, first_named name envs i e) <->
  head (filter (fun x => EnvVar.Name x = name) envs) = Some e.
Proof.
  induction envs as [|x envs IH].
  - split; [|done]. by intros (i & Hi & _).
  - destruct (decide (EnvVar.Name x = name)) as [Hx|Hx].
    + rewrite filter_cons_True by done. cbn [head]. split.
      * intros ([|i] & Hi & Hn & Hmin); [by injection Hi as ->|].
        by destruct (Hmin 0%nat x eq_refl (Nat.lt_0_succ i)).
      * intros [= <-]. exists 0%nat. split; [done|]. split; [done|]. intros; lia.
    + rewrite filter_cons_False by done. rewrite <- IH. split.
      * intros ([|i] & Hi & Hn & Hmin); [injection Hi as ->; done|].
        exists i. split; [done|]. split; [done|]. intros j y Hj Hlt.
        apply (Hmin (S j) y); [done|lia].
      * intros (i & Hi & Hn & Hmin). exists (S i). split; [done|]. split; [done|].
        intros [|j] y Hj Hlt; [by injection Hj as <-|].
        apply (Hmin j y); [done|lia].
Qed.

Lemma others_of_app name l1 l2 : others_of name (l1 ++ l2) = others_of name l1 ++ others_of name l2.
Proof. apply filter_app. Qed.

Lemma others_of_remove name envs (i : nat) x :
  envs !! i = Some x -> EnvVar.Name x = name ->
  others_of name (take i envs ++ drop (S i) envs) = others_of name envs.
Proof.
  intros Hi Hx.
  transitivity (others_of name (take i envs ++ x :: drop (S i) envs));
    [|by rewrite take_drop_middle].
  rewrite !others_of_app. f_equal. unfold others_of.
  rewrite filter_cons_False; [done|]. by intros Hne.
Qed.

Lemma others_of_named name name' envs :
  name' <> name ->
  filter (fun x => EnvVar.Name x = name') (others_of name envs) =
  filter (fun x => EnvVar.Name x = name') envs.
Proof.
  intros Hne. unfold others_of. induction envs as [|x envs IH]; [done|].
  destruct (decide (EnvVar.Name x = name')) as [Hx|Hx].
  - rewrite (filter_cons_True (fun e => EnvVar.Name e <> name)) by congruence.
    rewrite !(filter_cons_True (fun e => EnvVar.Name e = name')) by done. by rewrite IH.
  - rewrite (filter_cons_False (fun e => EnvVar.Name e = name') x envs) by done.
    destruct (decide (EnvVar.Name x = name)) as [Hx'|Hx'].
    + rewrite (filter_cons_False (fun e => EnvVar.Name e <> name)); [done|]. by intros ?.
    + rewrite (filter_cons_True (fun e => EnvVar.Name e <> name)) by done.
      by rewrite (filter_cons_False (fun e => EnvVar.Name e = name')).
Qed.

Lemma first_named_others name name' envs envs' i e :
  name' <> name ->
  others_of name envs `prefix_of` others_of name envs' ->
  first_named name' envs i e -> exists i', first_named name' envs' i' e.
Proof.
  intros Hne [rest Hrest] Hfirst. apply first_named_head.
  rewrite <- (others_of_named name), Hrest, filter_app, others_of_named by done.
  assert (head (filter (fun x => EnvVar.Name x = name') envs) = Some e) as Hhead
    by (apply first_named_head; eauto).
  destruct (filter _ envs); [done|]. done.
Qed.

(** ** The New Relic configuration *)

Section injection_properties.

Context (World error : Type).
Context (client_Get : types.NamespacedName.t -> World -> (error + appsv1.ReplicaSet.t) * World).
Context (apierrors_IsNotFound : error -> bool).
Context (strings_ToLower : string -> string).
Context (consts : constants.t).

Local Abbreviation createResourceMap :=
  (instrumentation.createResourceMap World error client_Get apierrors_IsNotFound
     strings_ToLower consts).
Local Abbreviation injectCommonSDKConfig :=
  (instrumentation.injectCommonSDKConfig World error client_Get apierrors_IsNotFound
     strings_ToLower consts).
Local Abbreviation injectNewrelicConfig :=
  (instrumentation.injectNewrelicConfig World error client_Get apierrors_IsNotFound
     strings_ToLower consts).

Local Ltac solve_sublist :=
  repeat first [apply sublist_nil | apply sublist_skip | apply sublist_cons].

Local Ltac solve_named :=
  repeat first
    [ assumption
    | by apply present_of_test
    | by (apply present_snoc; reflexivity)
    | apply present_app_l ].

(** X15: [injectNewrelicConfig] appends at most three variables.  It
    returns exactly when the container exists and [createResourceMap]
    returns, in the world [createResourceMap] leaves, and changes the
    environment of that container only: the environment is followed by a
    sub-list of the application name (the service name chosen from the
    attribute map), the licence key (a reference to the optional secret)
    and the labels, in this order.  The application name is added exactly
    when the container had none; afterwards the application name and the
    licence key are present, and the labels variable is either added or a
    variable of the configured labels name was there. *)
Theorem injectNewrelicConfig_appends fuel newrelic ns pod index c w :
  at_index (Pod.Containers pod) index = Some c ->
  (forall pod1 w1,
     injectNewrelicConfig fuel newrelic ns pod index w = Done (pod1, w1) ->
     exists rm, createResourceMap fuel newrelic ns pod index w = Done (rm, w1)) /\
  (forall rm w1,
     createResourceMap fuel newrelic ns pod index w = Done (rm, w1) ->
     exists A name,
       injectNewrelicConfig fuel newrelic ns pod index w =
       Done (set_container pod index (Container.with_Env c (Container.Env c ++ A)), w1) /\
       chooseServiceName pod rm index = Some name /\
       A `sublist_of` [EnvVar.mk (constants.EnvNewRelicAppName consts) name None;
                       licenseKeyEnv consts; labelsEnv] /\
       (unnamed (constants.EnvNewRelicAppName consts) (Container.Env c) ->
        head A = Some (EnvVar.mk (constants.EnvNewRelicAppName consts) name None)) /\
       (~ unnamed (constants.EnvNewRelicAppName consts) (Container.Env c) ->
        A `sublist_of` [licenseKeyEnv consts; labelsEnv]) /\
       ~ unnamed (constants.EnvNewRelicAppName consts) (Container.Env c ++ A) /\
       ~ unnamed (constants.EnvNewRelicLicenseKey consts) (Container.Env c ++ A) /\
       (labelsEnv ∈ A \/
        ~ unnamed (constants.EnvNewRelicLabels consts) (Container.Env c ++ A))).
Proof.
  intros Hc. unfold instrumentation.injectNewrelicConfig. split.
  - intros pod1 w1. unfold instrumentation.bind at 1. rewrite Hc.
    cbn [instrumentation.lift]. unfold instrumentation.bind at 1.
    destruct (createResourceMap fuel newrelic ns pod index w) as [[rm w']| |]; [|done|done].
    cbv zeta. unfold instrumentation.bind, instrumentation.ret, instrumentation.lift.
    intros Hrun. exists rm. repeat case_match; by simplify_eq.
  - intros rm w1 Hmap. unfold instrumentation.bind at 1. rewrite Hc.
    cbn [instrumentation.lift]. unfold instrumentation.bind at 1. rewrite Hmap. cbv zeta.
    destruct (chooseServiceName_is_Some pod rm index c Hc) as [name Hname].
    rewrite Hname. unfold instrumentation.bind, instrumentation.ret, instrumentation.lift.
    destruct (getIndexOfEnv (Container.Env c) (constants.EnvNewRelicAppName consts) =? -1)
      eqn:E1;
      match goal with
      | |- context [getIndexOfEnv ?l (constants.EnvNewRelicLicenseKey consts) =? -1] =>
          destruct (getIndexOfEnv l (constants.EnvNewRelicLicenseKey consts) =? -1) eqn:E2
      end;
      match goal with
      | |- context [getIndexOfEnv ?l (constants.EnvNewRelicLabels consts) =? -1] =>
          destruct (getIndexOfEnv l (constants.EnvNewRelicLabels consts) =? -1) eqn:E3
      end;
      first [ rewrite <- ?app_assoc; eexists _, name; split; [reflexivity|]
            | exists [], name; rewrite app_nil_r; split; [reflexivity|] ];
      (split; [done|]);
      first [rewrite getIndexOfEnv_absent_iff in E1 | apply present_of_test in E1];
      (split; [simpl; solve_sublist|]); (split; [simpl; done|]);
      (split; [try done; intros _; simpl; solve_sublist|]);
      rewrite ?app_assoc, ?app_nil_r;
      (split; [solve_named|]); (split; [solve_named|]);
      first [left; set_solver | right; solve_named].
Qed.

(** X16: [injectCommonSDKConfig] touches one environment only.  When it
    returns, the pod is the input with a new environment for the container
    [agentIndex]: the metadata, the node name, the number of containers,
    every other container, and the name and image of that container are
    as before.  The variables of the container that are not named as the
    resource-attributes variable are kept, in their order, before anything
    the function adds; so a variable the container sets itself stays the
    first of its name, with its value. *)
Theorem injectCommonSDKConfig_keeps_user_variables
    fuel newrelic ns pod agentIndex appIndex w pod1 w1 :
  injectCommonSDKConfig fuel newrelic ns pod agentIndex appIndex w = Done (pod1, w1) ->
  exists c envs,
    at_index (Pod.Containers pod) agentIndex = Some c /\
    pod1 = set_container pod agentIndex (Container.with_Env c envs) /\
    Pod.ObjectMeta pod1 = Pod.ObjectMeta pod /\
    PodSpec.NodeName (Pod.Spec pod1) = PodSpec.NodeName (Pod.Spec pod) /\
    len (Pod.Containers pod1) = len (Pod.Containers pod) /\
    (forall j, j <> agentIndex ->
               at_index (Pod.Containers pod1) j = at_index (Pod.Containers pod) j) /\
    at_index (Pod.Containers pod1) agentIndex =
      Some (Container.mk (Container.Name c) (Container.Image c) envs) /\
    others_of (constants.EnvOTELResourceAttrs consts) (Container.Env c)
      `prefix_of` others_of (constants.EnvOTELResourceAttrs consts) envs /\
    (forall name i e,
       name <> constants.EnvOTELResourceAttrs consts ->
       first_named name (Container.Env c) i e -> exists i', first_named name envs i' e).
Proof.
  intros Hrun.
  destruct (injectCommonSDKConfig_Done _ _ _ _ _ _ _ _ _ _ _ _ _ _ _ Hrun)
    as (c & rm & Hc & Hmap).
  destruct (injectCommonSDKConfig_run _ _ _ _ _ _ _ _ _ _ _ _ _ _ _ _ Hc Hmap)
    as (envs & Henv & Hrun').
  rewrite Hrun in Hrun'. injection Hrun' as ->.
  destruct (createResourceMap_Done_container _ _ _ _ _ _ _ _ _ _ _ _ _ _ Hmap) as [c' Hc'].
  destruct (env_shape strings_ToLower consts newrelic pod appIndex (Container.Env c) rm c' Hc')
    as (envs' & A1 & A2 & rm' & Henv' & _ & _ & _ & Hcases).
  rewrite Henv in Henv'. injection Henv' as <-.
  set (RA := constants.EnvOTELResourceAttrs consts) in *.
  assert (others_of RA (Container.Env c) `prefix_of` others_of RA envs) as Hprefix.
  { destruct Hcases as [[_ ->]|(i & e & (Hi & Hname & _) & ->)].
    - rewrite others_of_app. by eexists.
    - rewrite app_assoc, others_of_app, (others_of_remove _ _ _ _ Hi Hname), others_of_app.
      rewrite <- app_assoc. by eexists. }
  exists c, envs. split; [done|]. split; [done|]. split; [done|]. split; [done|].
  assert (0 <= agentIndex /\ (Z.to_nat agentIndex < length (Pod.Containers pod))%nat)
    as [Hpos Hlt].
  { unfold at_index in Hc. destruct (Z.leb_spec 0 agentIndex); [|done].
    split; [done|]. by eapply lookup_lt_Some. }
  split; [|split; [|split; [|split]]].
  - unfold len, set_container. cbn. by rewrite length_insert.
  - intros j Hj. unfold at_index, set_container. cbn.
    destruct (Z.leb_spec 0 j); [|done]. apply list_lookup_insert_ne. lia.
  - by apply at_index_set_container with (c := c).
  - exact Hprefix.
  - intros name i e Hne Hfirst. by eapply first_named_others.
Qed.

(** *** References to the downward API *)

Lemma reference_step key name path (env env' : list EnvVar.t) (rm rm' : gmap string string) :
  (if String.eqb (map_index rm key) EmptyString
   then (env ++ [fieldRefEnv name path], <[key := placeholder name]> rm)
   else (env, rm)) = (env', rm') ->
  (map_index rm key = EmptyString ->
   rm' !! key = Some (placeholder name) /\ fieldRefEnv name path ∈ env') /\
  (forall k, k <> key -> rm' !! k = rm !! k) /\
  map_index rm' key <> EmptyString /\
  (forall x, x ∈ env -> x ∈ env').
Proof.
  destruct (String.eqb_spec (map_index rm key) EmptyString) as [Hempty|Hvalue];
    intros [= <- <-].
  - split; [|split; [|split]].
    + intros _. rewrite lookup_insert_eq. split; [done|]. set_solver.
    + intros k Hk. by rewrite lookup_insert_ne.
    + unfold map_index. rewrite lookup_insert_eq. apply placeholder_nonempty.
    + set_solver.
  - by repeat split.
Qed.

Lemma identity_references newrelic pod appIndex env rm env' rm' :
  instrumentation.injectCommonSDKConfig_identity consts newrelic pod appIndex env rm
    = Some (env', rm') ->
  let uid :=
    v1alpha1.Resource.AddK8sUIDAttributes
      (v1alpha1.InstrumentationSpec.Resource (v1alpha1.Instrumentation.Spec newrelic)) in
  (forall key name path,
     (key, name, path) ∈ downward_references consts uid ->
     map_index rm key = EmptyString ->
     rm' !! key = Some (placeholder name) /\ fieldRefEnv name path ∈ env') /\
  (forall k, k ∉ [semconv.K8SPodNameKey; semconv.K8SPodUIDKey; semconv.K8SNodeNameKey;
                  semconv.ServiceVersionKey] -> rm' !! k = rm !! k) /\
  map_index rm' semconv.K8SPodNameKey <> EmptyString /\
  map_index rm' semconv.K8SNodeNameKey <> EmptyString.
Proof.
  intros H uid. unfold instrumentation.injectCommonSDKConfig_identity in H. cbv zeta in H.
  destruct (if _ =? -1 then _ else Some env) as [env1|] in H; [|done].
  cbn [mbind option_bind] in H.
  remember (if negb (String.eqb (v1alpha1.InstrumentationSpec.Endpoint _) _)
            then _ else env1) as env2 eqn:E2 in H.
  clear E2 env1.
  destruct (if String.eqb (map_index rm semconv.K8SPodNameKey) _ then _ else _)
    as [env3 rm3] eqn:E3 in H.
  apply reference_step in E3 as (Hpod & Hpod_frame & Hpod_value & Hpod_env).
  destruct (if v1alpha1.Resource.AddK8sUIDAttributes _ then _ else _)
    as [env4 rm4] eqn:E4 in H.
  assert ((uid = true ->
           map_index rm3 semconv.K8SPodUIDKey = EmptyString ->
           rm4 !! semconv.K8SPodUIDKey = Some (placeholder (constants.EnvPodUID consts)) /\
           fieldRefEnv (constants.EnvPodUID consts) "metadata.uid" ∈ env4) /\
          (forall k, k <> semconv.K8SPodUIDKey -> rm4 !! k = rm3 !! k) /\
          (forall x, x ∈ env3 -> x ∈ env4)) as (Huid & Huid_frame & Huid_env).
  { fold uid in E4. destruct uid.
    - apply reference_step in E4 as (? & ? & _ & ?). split; [by intros _|by split].
    - injection E4 as <- <-. split; [by intros ?|by split]. }
  clear E4.
  destruct (if _ =? -1 then Some false else _) as [hasVersion|] in H; [|done].
  cbn [mbind option_bind] in H.
  destruct (if negb hasVersion then _ else _) as [rm5|] eqn:E5 in H; [|done].
  assert (forall k, k <> semconv.ServiceVersionKey -> rm5 !! k = rm4 !! k) as Hversion.
  { intros k Hk. destruct (negb hasVersion); [|by injection E5 as <-].
    destruct (chooseServiceVersion pod appIndex) as [vsn|]; [|done].
    cbn [mbind option_bind] in E5. destruct (negb _); injection E5 as <-; [|done].
    by rewrite lookup_insert_ne. }
  clear E5. cbn [mbind option_bind] in H.
  destruct (if String.eqb (map_index rm5 semconv.K8SNodeNameKey) _ then _ else _)
    as [env6 rm6] eqn:E6 in H.
  apply reference_step in E6 as (Hnode & Hnode_frame & Hnode_value & Hnode_env).
  injection H as <- <-.
  assert (forall k, k <> semconv.K8SPodNameKey -> map_index rm3 k = map_index rm k) as Hmap3
    by (intros k Hk; unfold map_index; by rewrite Hpod_frame).
  split; [|split; [|split]].
  - intros key name path Hin Hempty. unfold downward_references in Hin.
    apply elem_of_app in Hin as [Hin|Hin]; [|apply elem_of_app in Hin as [Hin|Hin]].
    + apply list_elem_of_singleton in Hin as [= -> -> ->].
      destruct (Hpod Hempty) as [Hvalue Henv]. split.
      * by rewrite Hnode_frame, Hversion, Huid_frame.
      * by apply Hnode_env, Huid_env.
    + destruct uid eqn:Hflag; [|by apply elem_of_nil in Hin].
      apply list_elem_of_singleton in Hin as [= -> -> ->].
      destruct (Huid eq_refl) as [Hvalue Henv]; [by rewrite Hmap3|]. split.
      * by rewrite Hnode_frame, Hversion.
      * by apply Hnode_env.
    + apply list_elem_of_singleton in Hin as [= -> -> ->].
      apply Hnode. unfold map_index in *.
      by rewrite Hversion, Huid_frame, Hpod_frame.
  - intros k Hk.
    assert (k <> semconv.K8SPodNameKey /\ k <> semconv.K8SPodUIDKey /\
            k <> semconv.K8SNodeNameKey /\ k <> semconv.ServiceVersionKey)
      as (? & ? & ? & ?) by (repeat split; intros ->; apply Hk; repeat constructor).
    by rewrite Hnode_frame, Hversion, Huid_frame, Hpod_frame.
  - unfold map_index in *. by rewrite Hnode_frame, Hversion, Huid_frame.
  - done.
Qed.

Lemma env_shape_of_identity newrelic pod appIndex env0 rm envA rm' :
  instrumentation.injectCommonSDKConfig_identity consts newrelic pod appIndex env0 rm
    = Some (envA, rm') ->
  exists front r,
    instrumentation.injectCommonSDKConfig_env consts newrelic pod appIndex env0 rm
      = Some (front ++ [r]) /\
    EnvVar.Name r = constants.EnvOTELResourceAttrs consts /\
    (exists pre, EnvVar.Value r = pre +:+ resourceMapToStr rm') /\
    (forall x, x ∈ envA -> EnvVar.Name x <> constants.EnvOTELResourceAttrs consts ->
               x ∈ front).
Proof.
  intros Hid. unfold instrumentation.injectCommonSDKConfig_env.
  rewrite Hid. cbn [mbind option_bind].
  destruct (attributes_shape consts envA rm') as (envB & -> & Hcases).
  cbn [mbind option_bind].
  destruct (tracing_shape consts newrelic envB) as (envC & (A2 & -> & HA2) & ->).
  destruct Hcases as [[Hun ->]|(i & e & Hfirst & ->)].
  - rewrite (move_first_named _ _ A2 _ _
               (first_named_snoc _ _ (EnvVar.mk _ _ None) Hun eq_refl)).
    rewrite take_app_length, drop_ge by (rewrite !length_app; simpl; lia).
    exists (envA ++ A2), (EnvVar.mk (constants.EnvOTELResourceAttrs consts)
                            (resourceMapToStr rm') None).
    split; [by rewrite <- !app_assoc|]. split; [done|].
    split; [by exists EmptyString|]. set_solver.
  - rewrite (move_first_named _ _ A2 i _
               (first_named_insert _ _ _ _ (EnvVar.with_Value e _) Hfirst
                  (proj1 (proj2 Hfirst)))).
    destruct Hfirst as (Hi & Hname & _). apply lookup_lt_Some in Hi as Hlt.
    rewrite take_insert_ge, drop_insert_lt by lia.
    exists (take i envA ++ drop (S i) envA ++ A2), (EnvVar.with_Value e
              (EnvVar.Value e +:+ attributes_suffix e rm')).
    split; [by rewrite <- !app_assoc|]. split; [done|]. split.
    + cbn [EnvVar.with_Value EnvVar.Value]. unfold attributes_suffix.
      destruct (negb _); [|by eexists]. exists (EnvVar.Value e +:+ ",").
      by rewrite string_app_assoc.
    + intros x Hx Hne. rewrite <- (take_drop_middle envA i e Hi) in Hx.
      apply elem_of_app in Hx as [Hx|[->|Hx]%elem_of_cons]; set_solver.
Qed.

(** X18: the placeholders [injectCommonSDKConfig] writes can be expanded.
    When it returns, the last variable of the container is the
    resource-attributes variable and its value ends with the serialisation
    of a map [rm'] that agrees with the map of [createResourceMap] outside
    the pod name, pod UID, node name and service version, and in which the
    pod name and the node name are never empty.  For each of the pod name,
    the pod UID (with UID attributes) and the node name that the map of
    [createResourceMap] lacks, [rm'] holds the placeholder of the
    downward-API variable of that field, and that variable stands in the
    list before the resource-attributes variable, as the expansion of a
    reference needs. *)
Theorem downward_api_references fuel newrelic ns pod agentIndex appIndex w pod1 w1 :
  injectCommonSDKConfig fuel newrelic ns pod agentIndex appIndex w = Done (pod1, w1) ->
  let uid :=
    v1alpha1.Resource.AddK8sUIDAttributes
      (v1alpha1.InstrumentationSpec.Resource (v1alpha1.Instrumentation.Spec newrelic)) in
  exists c rm rm' front r,
    at_index (Pod.Containers pod) agentIndex = Some c /\
    createResourceMap fuel newrelic ns pod appIndex w = Done (rm, w1) /\
    pod1 = set_container pod agentIndex (Container.with_Env c (front ++ [r])) /\
    EnvVar.Name r = constants.EnvOTELResourceAttrs consts /\
    (exists pre, EnvVar.Value r = pre +:+ resourceMapToStr rm') /\
    map_index rm' semconv.K8SPodNameKey <> EmptyString /\
    map_index rm' semconv.K8SNodeNameKey <> EmptyString /\
    (forall k, k ∉ [semconv.K8SPodNameKey; semconv.K8SPodUIDKey; semconv.K8SNodeNameKey;
                    semconv.ServiceVersionKey] -> rm' !! k = rm !! k) /\
    (forall key name path,
       (key, name, path) ∈ downward_references consts uid ->
       map_index rm key = EmptyString ->
       rm' !! key = Some (placeholder name) /\
       (name <> constants.EnvOTELResourceAttrs consts -> fieldRefEnv name path ∈ front)).
Proof.
  intros Hrun uid.
  destruct (injectCommonSDKConfig_Done _ _ _ _ _ _ _ _ _ _ _ _ _ _ _ Hrun)
    as (c & rm & Hc & Hmap).
  destruct (injectCommonSDKConfig_run _ _ _ _ _ _ _ _ _ _ _ _ _ _ _ _ Hc Hmap)
    as (envs & Henv & Hrun').
  rewrite Hrun in Hrun'. injection Hrun' as ->.
  destruct (createResourceMap_Done_container _ _ _ _ _ _ _ _ _ _ _ _ _ _ Hmap) as [c' Hc'].
  destruct (identity_total consts newrelic pod appIndex (Container.Env c) rm c' Hc')
    as [[envA rm'] Hid].
  destruct (env_shape_of_identity _ _ _ _ _ _ _ Hid) as (front & r & Henv' & Hname & Hvalue & Hfront).
  rewrite Henv in Henv'. injection Henv' as ->.
  destruct (identity_references _ _ _ _ _ _ _ Hid) as (Hrefs & Hframe & Hpod & Hnode).
  exists c, rm, rm', front, r. do 7 (split; [done|]). split; [done|].
  intros key name path Hin Hempty. destruct (Hrefs key name path Hin Hempty) as [Hph Henvs].
  split; [done|]. intros Hne. by apply Hfront.
Qed.

End injection_properties.

(** ** The orchestrator: the Go path *)

Section go_path_properties.

Context (World error : Type).
Context (client_Get : types.NamespacedName.t -> World -> (error + appsv1.ReplicaSet.t) * World).
Context (apierrors_IsNotFound : error -> bool).
Context (strings_ToLower : string -> string).
Context (consts : constants.t).
Context (apm_InjectJavaagent apm_InjectNodeJSSDK apm_InjectPythonSDK
         apm_InjectDotNetSDK apm_InjectPhpagent :
           v1alpha1.AgentSpec.t -> Pod.t -> Z -> Pod.t * option error).
Context (apm_InjectGoSDK : v1alpha1.AgentSpec.t -> Pod.t -> Pod.t * option error).
Context (annotationValue : ObjectMeta.t -> ObjectMeta.t -> string -> string).
Context (annotationInjectGoContainerName : string).

Local Abbreviation inject :=
  (instrumentation.inject World error client_Get apierrors_IsNotFound
     strings_ToLower consts apm_InjectJavaagent apm_InjectNodeJSSDK apm_InjectPythonSDK
     apm_InjectDotNetSDK apm_InjectPhpagent apm_InjectGoSDK annotationValue
     annotationInjectGoContainerName).
Local Abbreviation injectCommonSDKConfig :=
  (instrumentation.injectCommonSDKConfig World error client_Get apierrors_IsNotFound
     strings_ToLower consts).

(** X17: with no in-process language configured, the container name passed
    to [inject] has no influence on the result.  With nothing configured
    the pod and the cluster are returned as they are.  With Go configured
    and a pod that has containers, a failing Go injector means that no
    configuration is injected and the cluster is not consulted: the pod the
    injector returned is the result, and the run panics when that pod has
    no container at the index found, before the injector ran, for the
    annotated Go container; when the injector succeeds the common
    environment and the SDK configuration go to the last container of the
    pod it returned, with the attributes of the first. *)
Theorem inject_go_path fuel insts ns pod w :
  languageInstrumentations.Java insts = None ->
  languageInstrumentations.NodeJS insts = None ->
  languageInstrumentations.Python insts = None ->
  languageInstrumentations.DotNet insts = None ->
  languageInstrumentations.Php insts = None ->
  (forall name1 name2, inject fuel insts ns pod name1 w = inject fuel insts ns pod name2 w) /\
  (languageInstrumentations.Go insts = None ->
   forall name, inject fuel insts ns pod name w = Done (pod, w)) /\
  (forall newrelic pod' err name,
     languageInstrumentations.Go insts = Some newrelic ->
     0 < len (Pod.Containers pod) ->
     let index :=
       getContainerIndex
         (annotationValue (Namespace.ObjectMeta ns) (Pod.ObjectMeta pod)
            annotationInjectGoContainerName) pod in
     (apm_InjectGoSDK
        (v1alpha1.InstrumentationSpec.Go (v1alpha1.Instrumentation.Spec newrelic)) pod
      = (pod', Some err) ->
      inject fuel insts ns pod name w =
      match at_index (Pod.Containers pod') index with
      | Some _ => Done (pod', w)
      | None => Panic
      end) /\
     (apm_InjectGoSDK
        (v1alpha1.InstrumentationSpec.Go (v1alpha1.Instrumentation.Spec newrelic)) pod
      = (pod', None) ->
      inject fuel insts ns pod name w =
      match injectCommonEnvVar newrelic pod' (len (Pod.Containers pod') - 1) with
      | Some pod2 =>
          injectCommonSDKConfig fuel newrelic ns pod2 (len (Pod.Containers pod2) - 1) 0 w
      | None => Panic
      end)).
Proof.
  intros HJava HNodeJS HPython HDotNet HPhp.
  assert (forall name,
    inject fuel insts ns pod name w =
    if len (Pod.Containers pod) <? 1 then Done (pod, w)
    else match languageInstrumentations.Go insts with
         | None => Done (pod, w)
         | Some newrelic =>
             let index :=
               getContainerIndex
                 (annotationValue (Namespace.ObjectMeta ns) (Pod.ObjectMeta pod)
                    annotationInjectGoContainerName) pod in
             let '(pod', err) :=
               apm_InjectGoSDK
                 (v1alpha1.InstrumentationSpec.Go (v1alpha1.Instrumentation.Spec newrelic))
                 pod in
             match err with
             | Some _ =>
                 match at_index (Pod.Containers pod') index with
                 | Some _ => Done (pod', w)
                 | None => Panic
                 end
             | None =>
                 match injectCommonEnvVar newrelic pod' (len (Pod.Containers pod') - 1) with
                 | Some pod2 =>
                     injectCommonSDKConfig fuel newrelic ns pod2
                       (len (Pod.Containers pod2) - 1) 0 w
                 | None => Panic
                 end
             end
         end) as Hinject.
  { intros name. unfold instrumentation.inject.
    destruct (len (Pod.Containers pod) <? 1); [done|].
    unfold instrumentation.inject_languages, instrumentation.injectAgent.
    rewrite HJava, HNodeJS, HPython, HDotNet, HPhp.
    unfold instrumentation.bind at 1 2 3 4 5. unfold instrumentation.ret at 1 2 3 4 5.
    destruct (languageInstrumentations.Go insts) as [newrelic|]; [|done]. cbv zeta.
    destruct (apm_InjectGoSDK _ pod) as [pod' [err|]].
    - unfold instrumentation.bind, instrumentation.lift, instrumentation.ret.
      by destruct (at_index _ _).
    - unfold instrumentation.bind at 1. unfold instrumentation.lift.
      by destruct (injectCommonEnvVar _ _ _). }
  split; [|split].
  - intros name1 name2. by rewrite !Hinject.
  - intros HGo name. rewrite Hinject, HGo. by destruct (_ <? 1).
  - intros newrelic pod' err name HGo Hlen index.
    destruct (Z.ltb_spec (len (Pod.Containers pod)) 1) as [?|_]; [lia|].
    split; intros Hinjector; rewrite Hinject, HGo; cbv zeta; fold index;
      rewrite Hinjector; by destruct (Z.ltb_spec (len (Pod.Containers pod)) 1); [lia|].
Qed.

End go_path_properties.

(** ** The further properties on the sample inputs *)

Lemma Default_fills_blanks_witness :
  map_index
    (ObjectMeta.Labels (v1alpha1.Instrumentation.ObjectMeta (v1alpha1.Default sample.newrelic)))
    "app.kubernetes.io/managed-by" = "k8s-agents-operator"%string.
Proof.
  apply (proj1 (proj2 (proj2 (Default_fills_blanks sample.newrelic)))). reflexivity.
Defined.

Lemma validate_reports_first_witness :
  v1alpha1.validate
    (v1alpha1.Instrumentation.mk (sample.meta "newrelic" [])
       (sample.spec ∅ [EnvVar.mk "OTEL_LOG_LEVEL" "debug" None;
                       EnvVar.mk "LOG_LEVEL" "debug" None;
                       EnvVar.mk "PATH" "/bin" None]))
  = Some (v1alpha1.envNameError +:+ "LOG_LEVEL").
Proof.
  apply (proj2 (validate_reports_first _ _)).
  exists 1%nat, (EnvVar.mk "LOG_LEVEL" "debug" None).
  split; [reflexivity|]. split; [by split|]. split; [|reflexivity].
  intros [|j] env' Hlt Hj; [|lia]. injection Hj as <-. by intros [? ?].
Defined.

Lemma getIndexOfEnv_first_match_witness :
  getIndexOfEnv [EnvVar.mk "A" "1" None; EnvVar.mk "B" "2" None; EnvVar.mk "B" "3" None] "B" = 1.
Proof.
  apply (proj1 (proj2 (getIndexOfEnv_first_match _ "B")) 1%nat).
  exists (EnvVar.mk "B" "2" None). split; [reflexivity|]. split; [reflexivity|].
  intros [|j] y Hj Hlt; [|lia]. by injection Hj as <-.
Defined.

Lemma getContainerIndex_in_range_witness :
  exists c, at_index (Pod.Containers sample.twins) (getContainerIndex "app" sample.twins) = Some c.
Proof. by apply (proj1 (proj2 (getContainerIndex_in_range "app" sample.twins))). Defined.

Lemma chooseServiceVersion_plain_witness :
  chooseServiceVersion (sample.pod_of "cache" [] [Container.mk "cache" "redis" []]) 0
  = Some "redis"%string.
Proof.
  apply (proj2 (chooseServiceVersion_plain
                  (sample.pod_of "cache" [] [Container.mk "cache" "redis" []]) 0
                  (Container.mk "cache" "redis" []) eq_refl)).
  unfold has_byte. simpl. intuition discriminate.
Defined.

Lemma resourceMapToStr_sorted_items_witness :
  "team"%string ∈ sort_Strings (fst <$> map_to_list ({[ "team"%string := "shop"%string ]}
                                                     : gmap string string)).
Proof.
  apply (proj1 (proj2 (proj2 (proj2 (resourceMapToStr_sorted_items _))))).
  exists "shop"%string. reflexivity.
Defined.

Lemma written_attributes_read_back_witness :
  set_index
    (existing_keys sample.consts
       (Container.mk "app" "app:1.2.3"
          [EnvVar.mk "OTEL_RESOURCE_ATTRIBUTES"
             (resourceMapToStr {[ "team"%string := "shop"%string ]}) None]))
    "team" = true.
Proof.
  apply (proj1 (written_attributes_read_back sample.World sample.error sample.client_Get
                  sample.IsNotFound strings.asciiToLower sample.consts
                  {[ "team"%string := "shop"%string ]}
                  (Container.mk "app" "app:1.2.3"
                     [EnvVar.mk "OTEL_RESOURCE_ATTRIBUTES"
                        (resourceMapToStr {[ "team"%string := "shop"%string ]}) None])
                  0%nat
                  (EnvVar.mk "OTEL_RESOURCE_ATTRIBUTES"
                     (resourceMapToStr {[ "team"%string := "shop"%string ]}) None)
                  (EnvVar.mk "OTEL_RESOURCE_ATTRIBUTES" EmptyString None)
                  ltac:(by apply map_Forall_singleton)
                  ltac:(split; [reflexivity|split; [reflexivity|intros; lia]])
                  (or_introl eq_refl))).
  exists "shop"%string. reflexivity.
Defined.

Lemma addParentResourceLabels_owner_keys_only_witness :
  sample.addParentResourceLabels 1 false sample.ns
    (sample.meta "web-1" [OwnerReference.mk "Deployment" "web" "uid-d"]) ∅ 0%nat
  = Done (<[semconv.K8SDeploymentNameKey := "web"%string]> ∅, 0%nat).
Proof.
  unfold sample.addParentResourceLabels.
  rewrite (proj2 (addParentResourceLabels_owner_keys_only sample.World sample.error
                    sample.client_Get sample.IsNotFound strings.asciiToLower 0 false sample.ns
                    (sample.meta "web-1" [OwnerReference.mk "Deployment" "web" "uid-d"]) ∅)).
  - reflexivity.
  - constructor; [|constructor]. intros Hkind. vm_compute in Hkind. discriminate.
Defined.


Lemma deployment_names_the_service_witness :
  exists rm,
    cluster.createResourceMap 2 sample.newrelic sample.ns sample.replica 0 0%nat
    = Done (rm, 1%nat) /\
    chooseServiceName sample.replica rm 0 = Some "web"%string.
Proof.
  destruct (proj2 (deployment_names_the_service cluster.World sample.error cluster.client_Get
                     sample.IsNotFound strings.asciiToLower sample.consts 0 sample.newrelic
                     sample.ns sample.replica 0 (Container.mk "app" "app:1.2.3" []) 0%nat
                     (OwnerReference.mk "ReplicaSet" "web-7d9" "uid-rs")
                     (appsv1.ReplicaSet.mk
                        (sample.meta "web-7d9" [OwnerReference.mk "Deployment" "web" "uid-d"]))
                     1%nat (OwnerReference.mk "Deployment" "web" "uid-d")
                     eq_refl eq_refl eq_refl eq_refl eq_refl eq_refl))
    as (rm & Hrun & _ & Hname); [discriminate|reflexivity|].
  exists rm. by split.
Defined.

Lemma injectCommonEnvVar_adds_missing_witness :
  injectCommonEnvVar sample.newrelic sample.bare 0 = None.
Proof.
  by apply (proj2 (proj1 (injectCommonEnvVar_adds_missing sample.newrelic sample.bare 0))).
Defined.

Lemma injectNewrelicConfig_appends_witness :
  exists pod1,
    instrumentation.injectNewrelicConfig sample.World sample.error sample.client_Get
      sample.IsNotFound strings.asciiToLower sample.consts 1 sample.newrelic sample.ns
      sample.web 0 0%nat = Done (pod1, 0%nat).
Proof.
  assert (match sample.createResourceMap 1 sample.newrelic sample.ns sample.web 0 0%nat with
          | Done (_, w') => w' = 0%nat
          | _ => False
          end) as Hworld by (vm_compute; reflexivity).
  destruct (sample.createResourceMap 1 sample.newrelic sample.ns sample.web 0 0%nat)
    as [[rm w']| |] eqn:Hmap; [|destruct Hworld..]. subst w'.
  destruct (proj2 (injectNewrelicConfig_appends sample.World sample.error sample.client_Get
                     sample.IsNotFound strings.asciiToLower sample.consts 1 sample.newrelic
                     sample.ns sample.web 0 (Container.mk "app" "app:1.2.3" []) 0%nat eq_refl)
              rm 0%nat Hmap) as (A & name & Hrun & _).
  eexists. exact Hrun.
Defined.

Lemma injectCommonSDKConfig_keeps_user_variables_witness :
  exists c envs,
    at_index (Pod.Containers sample.web) 0 = Some c /\
    sample.web_injected = set_container sample.web 0 (Container.with_Env c envs).
Proof.
  destruct (injectCommonSDKConfig_keeps_user_variables sample.World sample.error
              sample.client_Get sample.IsNotFound strings.asciiToLower sample.consts 1
              sample.newrelic sample.ns sample.web 0 0 0%nat sample.web_injected 0%nat)
    as (c & envs & Hc & Hpod & _); [by vm_compute|].
  by exists c, envs.
Defined.

Lemma inject_go_path_witness :
  sample.inject 1 sample.noInsts sample.ns sample.web "app" 0%nat = Done (sample.web, 0%nat).
Proof.
  by apply (proj1 (proj2 (inject_go_path sample.World sample.error sample.client_Get
                            sample.IsNotFound strings.asciiToLower sample.consts
                            sample.injector sample.injector sample.injector sample.injector
                            sample.injector sample.injectGo sample.annotationValue
                            "instrumentation.newrelic.com/go-container-name"
                            1 sample.noInsts sample.ns sample.web 0%nat
                            eq_refl eq_refl eq_refl eq_refl eq_refl))).
Defined.

Lemma downward_api_references_witness :
  exists c front r,
    at_index (Pod.Containers sample.web) 0 = Some c /\
    sample.web_injected = set_container sample.web 0 (Container.with_Env c (front ++ [r])) /\
    EnvVar.Name r = "OTEL_RESOURCE_ATTRIBUTES"%string.
Proof.
  destruct (downward_api_references sample.World sample.error sample.client_Get
              sample.IsNotFound strings.asciiToLower sample.consts 1 sample.newrelic sample.ns
              sample.web 0 0 0%nat sample.web_injected 0%nat)
    as (c & rm & rm' & front & r & Hc & _ & Hpod & Hname & _); [by vm_compute|].
  by exists c, front, r.
Defined.

Lemma service_instance_id_needs_all_parts_witness :
  exists rm,
    sample.createResourceMap 1 sample.newrelic sample.ns sample.web 0 0%nat = Done (rm, 0%nat) /\
    rm !! semconv.ServiceInstanceIDKey = Some "shop.web-1.app"%string.
Proof.
  assert (match sample.createResourceMap 1 sample.newrelic sample.ns sample.web 0 0%nat with
          | Done (_, w') => w' = 0%nat
          | _ => False
          end) as Hworld by (vm_compute; reflexivity).
  destruct (sample.createResourceMap 1 sample.newrelic sample.ns sample.web 0 0%nat)
    as [[rm w']| |] eqn:Hmap; [|destruct Hworld..]. subst w'.
  exists rm. split; [reflexivity|].
  by apply (proj1 (service_instance_id_needs_all_parts sample.World sample.error
                     sample.client_Get sample.IsNotFound strings.asciiToLower sample.consts 1
                     sample.newrelic sample.ns sample.web 0 (Container.mk "app" "app:1.2.3" [])
                     0%nat rm 0%nat eq_refl Hmap eq_refl eq_refl)).
Defined.
